(** * vless_config_aggregator: a shallow embedding of [app/main.py]

    The service reads a list of source lines, classifies them into
    subscription endpoints and inline [vless://] entries, fetches every
    endpoint concurrently, merges the decoded payloads with the inline
    entries and answers with the base64 encoding of the result.

    Conventions of the embedding.
    - A Python [str] is a [string] holding the UTF-8 encoding of the text, so
      [str.encode()] keeps the bytes as they are; [bytes] is [list byte].
    - The operating system and the network are a record of oracles
      ([World]); every function of the program is a function of that record.
    - A coroutine evaluates to the records that reached the log of the
      program (its own and those of httpx, which the root logger takes at
      level INFO) and either the value it returned or the exception it
      raised. *)

From Stdlib Require Import List String Ascii Strings.Byte NArith ZArith Bool Arith Lia.
From Stdlib Require Import Sorting.Sorted Sorting.Permutation.
Import ListNotations.
Open Scope string_scope.
Open Scope list_scope.

(** * The model *)

(** ** Python text operations *)

Module Text.

Definition chars := list ascii.

(** UTF-8 encoding of one code point. *)
Definition utf8 (cp : N) : chars :=
  let cont (n : N) := ascii_of_N (128 + n mod 64)%N in
  if (cp <? 128)%N then [ascii_of_N cp]
  else if (cp <? 2048)%N then [ascii_of_N (192 + cp / 64)%N; cont cp]
  else if (cp <? 65536)%N then
    [ascii_of_N (224 + cp / 4096)%N; cont (cp / 64)%N; cont cp]
  else
    [ascii_of_N (240 + cp / 262144)%N; cont (cp / 4096)%N; cont (cp / 64)%N;
     cont cp].

(** The code points for which [str.isspace] holds: what [str.strip()]
    without argument removes. *)
Definition whitespace_code_points : list N :=
  [ 9; 10; 11; 12; 13; 28; 29; 30; 31; 32; 133; 160; 5760;
    8192; 8193; 8194; 8195; 8196; 8197; 8198; 8199; 8200; 8201; 8202;
    8232; 8233; 8239; 8287; 12288 ]%N.

Definition whitespace : list chars := map utf8 whitespace_code_points.

(** The line boundaries of [str.splitlines()], apart from the pair CR LF. *)
Definition linebreak_code_points : list N :=
  [ 10; 11; 12; 13; 28; 29; 30; 133; 8232; 8233 ]%N.

Definition linebreaks : list chars :=
  [ascii_of_N 13; ascii_of_N 10] :: map utf8 linebreak_code_points.

(** [drop_prefix p s] is what follows [p] in [s], when [s] starts with [p]. *)
Fixpoint drop_prefix (p s : chars) : option chars :=
  match p, s with
  | [], _ => Some s
  | a :: p', b :: s' => if Ascii.eqb a b then drop_prefix p' s' else None
  | _ :: _, [] => None
  end.

(** The rest of [s] after the first pattern of [pats] it starts with. *)
Fixpoint drop_any (pats : list chars) (s : chars) : option chars :=
  match pats with
  | [] => None
  | p :: pats' =>
      match drop_prefix p s with
      | Some r => Some r
      | None => drop_any pats' s
      end
  end.

(** Drop leading patterns for as long as there is one; [fuel] bounds the
    number of rounds and the length of the text is always enough. *)
Fixpoint drop_all (pats : list chars) (fuel : nat) (s : chars) : chars :=
  match fuel with
  | O => s
  | S k =>
      match drop_any pats s with
      | Some r => drop_all pats k r
      | None => s
      end
  end.

Definition lstrip (s : chars) : chars := drop_all whitespace (List.length s) s.

Definition rstrip (s : chars) : chars :=
  rev (drop_all (map (@rev ascii) whitespace) (List.length s) (rev s)).

(** [str.strip()] *)
Definition strip (s : string) : string :=
  string_of_list_ascii (rstrip (lstrip (list_ascii_of_string s))).

(** [s.startswith(p)] *)
Definition startswith (s p : string) : bool := prefix p s.

(** [str.splitlines()]: [line] is the line being read, in order. *)
Fixpoint splitlines_from (fuel : nat) (line s : chars) : list chars :=
  match fuel with
  | O => []
  | S k =>
      match s with
      | [] => match line with [] => [] | _ => [line] end
      | c :: s' =>
          match drop_any linebreaks s with
          | Some r => line :: splitlines_from k [] r
          | None => splitlines_from k (line ++ [c]) s'
          end
      end
  end.

Definition splitlines (s : string) : list string :=
  let cs := list_ascii_of_string s in
  map string_of_list_ascii (splitlines_from (S (List.length cs)) [] cs).

(** [sep.join(parts)] on [bytes]. *)
Fixpoint join (sep : list byte) (parts : list (list byte)) : list byte :=
  match parts with
  | [] => []
  | [x] => x
  | x :: rest => x ++ sep ++ join sep rest
  end.

(** [str.encode()] *)
Definition encode (s : string) : list byte := list_byte_of_string s.

(** Every character is below U+0100: in UTF-8, an ASCII byte or one of the
    lead bytes C2 and C3 with its continuation byte. *)
Fixpoint latin1_chars (s : chars) : bool :=
  match s with
  | [] => true
  | c :: s1 =>
      if (N_of_ascii c <? 128)%N then latin1_chars s1
      else if ((N_of_ascii c =? 194) || (N_of_ascii c =? 195))%N then
        match s1 with
        | d :: s2 =>
            ((128 <=? N_of_ascii d) && (N_of_ascii d <? 192))%N && latin1_chars s2
        | [] => false
        end
      else false
  end.

(** [s.encode("latin-1")] does not raise. *)
Definition latin1 (s : string) : bool := latin1_chars (list_ascii_of_string s).

End Text.

Import Text.

(** ** Exceptions *)

(** The exception classes the program can meet.  The first group is
    [httpx.HTTPError] and its subclasses; [InvalidURL] is an httpx exception
    outside that hierarchy; the rest are built in. *)
Inductive exception : Type :=
| HTTPStatusError
| ConnectTimeout
| ReadTimeout
| ConnectError
| ReadError
| RemoteProtocolError
| UnsupportedProtocol
| TooManyRedirects
| DecodingError
| InvalidURL
| FileNotFoundError
| PermissionError
| UnicodeDecodeError
| UnicodeEncodeError
| TypeError
| ValueError
| binascii_Error.

(** [isinstance(e, httpx.HTTPError)] *)
Definition is_HTTPError (e : exception) : bool :=
  match e with
  | HTTPStatusError
  | ConnectTimeout | ReadTimeout | ConnectError | ReadError
  | RemoteProtocolError | UnsupportedProtocol
  | TooManyRedirects | DecodingError => true
  | _ => false
  end.

(** [isinstance(e, httpx.TransportError)]: timeouts, network and protocol
    errors. *)
Definition is_TransportError (e : exception) : bool :=
  match e with
  | ConnectTimeout | ReadTimeout | ConnectError | ReadError
  | RemoteProtocolError | UnsupportedProtocol => true
  | _ => false
  end.

Definition is_HTTPStatusError (e : exception) : bool :=
  match e with HTTPStatusError => true | _ => false end.

Definition is_FileNotFoundError (e : exception) : bool :=
  match e with FileNotFoundError => true | _ => false end.

(** ** The [base64] module *)

Module Base64.

Definition alphabet : list byte :=
  list_byte_of_string
    "ABCDEFGHIJKLMNOPQRSTUVWXYZabcdefghijklmnopqrstuvwxyz0123456789+/".

Definition BASE64_PAD : byte := "="%byte.

Definition byte_of_N (n : N) : byte :=
  match Byte.of_N (n mod 256) with Some b => b | None => x00 end.

(** [table_b2a_base64] *)
Definition table_b2a (n : N) : byte := nth (N.to_nat n) alphabet BASE64_PAD.

Fixpoint index_of (c : byte) (l : list byte) (i : N) : option N :=
  match l with
  | [] => None
  | x :: l' => if Byte.eqb c x then Some i else index_of c l' (i + 1)%N
  end.

(** [table_a2b_base64]: the value of a digit, nothing for any other byte. *)
Definition table_a2b (c : byte) : option N := index_of c alphabet 0%N.

(** [base64.b64encode(s)], that is, [binascii.b2a_base64(s, newline=False)]. *)
Fixpoint b64encode (s : list byte) : list byte :=
  match s with
  | [] => []
  | a :: s1 =>
      let a := Byte.to_N a in
      match s1 with
      | [] =>
          [table_b2a (N.shiftr a 2);
           table_b2a (N.shiftl (N.land a 3) 4);
           BASE64_PAD; BASE64_PAD]
      | b :: s2 =>
          let b := Byte.to_N b in
          match s2 with
          | [] =>
              [table_b2a (N.shiftr a 2);
               table_b2a (N.lor (N.shiftl (N.land a 3) 4) (N.shiftr b 4));
               table_b2a (N.shiftl (N.land b 15) 2);
               BASE64_PAD]
          | c :: s3 =>
              let c := Byte.to_N c in
              table_b2a (N.shiftr a 2)
              :: table_b2a (N.lor (N.shiftl (N.land a 3) 4) (N.shiftr b 4))
              :: table_b2a (N.lor (N.shiftl (N.land b 15) 2) (N.shiftr c 6))
              :: table_b2a (N.land c 63)
              :: b64encode s3
          end
      end
  end.

(** The loop of [binascii.a2b_base64] in its default, non-strict mode:
    bytes outside the alphabet are skipped, a pad that completes a quad
    ends the input, and what is left of an unfinished quad is an error.
    [bin_data] is the output written so far. *)
Fixpoint a2b_loop (ascii_data : list byte) (quad_pos leftchar pads : N)
         (bin_data : list byte) : exception + list byte :=
  match ascii_data with
  | [] => if (quad_pos =? 0)%N then inr bin_data else inl binascii_Error
  | this_ch :: rest =>
      if Byte.eqb this_ch BASE64_PAD then
        if (2 <=? quad_pos)%N then
          if (4 <=? quad_pos + (pads + 1))%N then inr bin_data
          else a2b_loop rest quad_pos leftchar (pads + 1)%N bin_data
        else a2b_loop rest quad_pos leftchar pads bin_data
      else
        match table_a2b this_ch with
        | None => a2b_loop rest quad_pos leftchar pads bin_data
        | Some v =>
            if (quad_pos =? 0)%N then
              a2b_loop rest 1%N v 0%N bin_data
            else if (quad_pos =? 1)%N then
              a2b_loop rest 2%N (N.land v 15) 0%N
                (bin_data
                 ++ [byte_of_N (N.lor (N.shiftl leftchar 2) (N.shiftr v 4))])
            else if (quad_pos =? 2)%N then
              a2b_loop rest 3%N (N.land v 3) 0%N
                (bin_data
                 ++ [byte_of_N (N.lor (N.shiftl leftchar 4) (N.shiftr v 2))])
            else
              a2b_loop rest 0%N 0%N 0%N
                (bin_data ++ [byte_of_N (N.lor (N.shiftl leftchar 6) v)])
        end
  end.

Definition a2b_base64 (data : list byte) : exception + list byte :=
  a2b_loop data 0%N 0%N 0%N [].

(** [base64.b64decode(s)] on [bytes]. *)
Definition b64decode_bytes (s : list byte) : exception + list byte :=
  a2b_base64 s.

(** [base64.b64decode(s)] on a [str]: the text has to be ASCII
    ([ValueError] otherwise) and is then decoded as above. *)
Definition b64decode (s : string) : exception + list byte :=
  let data := list_byte_of_string s in
  if forallb (fun c => (Byte.to_N c <? 128)%N) data
  then a2b_base64 data
  else inl ValueError.

End Base64.

Import Base64.

(** ** Effects: logging, exceptions, the outside world *)

Inductive level : Type := DEBUG | INFO | WARNING | ERROR | CRITICAL.

(** [httpx.Response], as far as the program looks at it. *)
Record httpx_Response : Type := {
  http_status : Z;
  text : string
}.

(** A record in the log of the program.  [Log] is a record written through
    [logger]: the level, the text of the message and, when the message ends
    with [str(e)], the exception [e].  [HTTP_Request] is the record, of
    level INFO, that httpx writes for every request that was answered: the
    address and the answer; the root logger is set to INFO and takes it. *)
Inductive log_record : Type :=
| Log (levelname : level) (message : string) (exc_info : option exception)
| HTTP_Request (url : string) (response : httpx_Response).

(** What leaves a request handler when it does not return: an
    [HTTPException], which the framework turns into a response with that
    status code and detail, or any other exception, which it does not handle. *)
Inductive raised : Type :=
| HTTPException (status_code : Z) (detail : string)
| Unhandled (e : exception).

(** A coroutine of the program: the records it logged, then its result. *)
Definition M (A : Type) : Type := (list log_record * (raised + A))%type.

Definition ret {A} (a : A) : M A := ([], inr a).

Definition raise {A} (e : raised) : M A := ([], inl e).

Definition logger (l : level) (msg : string) (e : option exception) : M unit :=
  ([Log l msg e], inr tt).

(** What [client.get] leaves in the log: httpx's record when the request
    was answered, nothing when it raised. *)
Definition request_log (url : string) (o : exception + httpx_Response)
  : list log_record :=
  match o with
  | inr response => [HTTP_Request url response]
  | inl _ => []
  end.

Definition emit (records : list log_record) : M unit := (records, inr tt).

Definition bind {A B} (c : M A) (k : A -> M B) : M B :=
  match c with
  | (logs, inl e) => (logs, inl e)
  | (logs, inr a) => let (logs', r) := k a in (logs ++ logs', r)
  end.

Notation "x <- c ;; k" := (bind c (fun x => k))
  (at level 61, c at next level, right associativity).

Notation "c ;;; k" := (bind c (fun _ => k))
  (at level 61, right associativity).

(** The body of a [try] block: it stops at the first exception. *)
Definition and_then {A B} (c : exception + A) (k : A -> exception + B)
  : exception + B :=
  match c with inl e => inl e | inr a => k a end.

Notation "x <-- c ;; k" := (and_then c (fun x => k))
  (at level 61, c at next level, right associativity).

(** [response.raise_for_status()] *)
Definition raise_for_status (r : httpx_Response) : exception + unit :=
  if ((200 <=? http_status r) && (http_status r <=? 299))%Z
  then inr tt else inl HTTPStatusError.

(** The answer to one request of a fan-out: when it arrives, and what. *)
Record reply : Type := {
  arrival : nat;
  outcome : exception + httpx_Response
}.

(** [client.get(url, timeout=...)] for one caller. *)
Definition http_get := string -> nat -> reply.

Record World : Type := {
  (** [os.getenv] *)
  environ : string -> option string;
  (** [open('configs.txt', encoding='utf-8')] followed by [readlines()] *)
  configs_txt : exception + list string;
  (** [client.get(url, headers=..., timeout=...)] in [fetch_links] *)
  source_list_get :
    string -> list (string * string) -> nat -> exception + httpx_Response;
  (** [client.get] of the k-th coroutine started by [merge_all] *)
  subscription_get : nat -> http_get
}.

(** A coroutine handed to [gather], with the time at which it finishes. *)
Record task (A : Type) : Type := {
  done_at : nat;
  run : M A
}.

Arguments done_at {A} _.

Arguments run {A} _.

Fixpoint insert_by_time {A} (t : task A) (l : list (task A)) : list (task A) :=
  match l with
  | [] => [t]
  | u :: l' =>
      if (done_at t <=? done_at u)%nat then t :: l else u :: insert_by_time t l'
  end.

(** The tasks in the order in which they finish (input order on a tie). *)
Definition by_completion {A} (ts : list (task A)) : list (task A) :=
  fold_right insert_by_time [] ts.

Fixpoint await_each {A} (ts : list (task A)) : M unit :=
  match ts with
  | [] => ret tt
  | t :: ts' => run t ;;; await_each ts'
  end.

Definition returned {A} (ts : list (task A)) : list A :=
  flat_map (fun t => match snd (run t) with inr a => [a] | inl _ => [] end) ts.

(** [await asyncio.gather] on the tasks [ts]: they run concurrently; the first
    exception raised, in time, is raised to the caller; when none is, the
    results come back in the order of [ts]. *)
Definition gather {A} (ts : list (task A)) : M (list A) :=
  await_each (by_completion ts) ;;; ret (returned ts).

(** ** The program *)

Definition truthy (value : option string) : bool :=
  match value with
  | Some s => negb (s =? "")%string
  | None => false
  end.

Definition or_else (a b : option string) : option string :=
  if truthy a then a else b.

Definition _get_env (w : World) (name : string) : option string :=
  match environ w name with
  | None => None
  | Some value =>
      let value := strip value in
      or_else (Some value) None
  end.

Definition build_optional_headers (w : World) : list (string * string) :=
  let profile_title := or_else (_get_env w "PROFILE_TITLE") (_get_env w "SUB_NAME") in
  let headers :=
    [ ("profile-title", profile_title);
      ("support-url", _get_env w "SUPPORT_URL");
      ("profile-web-page-url", _get_env w "PROFILE_WEB_PAGE_URL");
      ("announce", _get_env w "ANNOUNCE");
      ("profile-update-interval", _get_env w "PROFILE_UPDATE_INTERVAL");
      ("providerid", _get_env w "PROVIDER_ID") ] in
  flat_map (fun kv => match snd kv with
                      | Some value => if truthy (snd kv) then [(fst kv, value)] else []
                      | None => []
                      end) headers.

(** [d.get(key)] on a dict kept as the list of its items. *)
Fixpoint dict_get (key : string) (d : list (string * string)) : option string :=
  match d with
  | [] => None
  | (k, v) :: d' => if (k =? key)%string then Some v else dict_get key d'
  end.

(** The two comprehensions of [fetch_links]. *)
Definition sub_links_of (lines : list string) : list string :=
  map strip (filter (fun line => startswith (strip line) "http") lines).

Definition vless_links_of (lines : list string) : list string :=
  map strip (filter (fun line => startswith (strip line) "vless://") lines).

(** [attempt] is the [try] block, [requested] what its request, when it
    makes one, leaves in the log. *)
Definition fetch_links (w : World) : M (list string * list string) :=
  let attempt : exception + (list string * list string) :=
    lines <--
      (if match environ w "LOCAL_MODE" with
          | Some v => (v =? "on")%string
          | None => false
          end
       then configs_txt w
       else
         let github_token := environ w "GITHUB_TOKEN" in
         let headers :=
           match github_token with
           | Some tok =>
               if truthy github_token
               then [ ("Authorization", ("token " ++ tok)%string);
                      ("Accept", "application/vnd.github.v3.raw") ]
               else []
           | None => []
           end in
         match environ w "CONFIG_URL" with
         | None => inl TypeError
         | Some url =>
             response <-- source_list_get w url headers 6 ;;
             _ <-- raise_for_status response ;;
             inr (splitlines (text response))
         end) ;;
    inr (sub_links_of lines, vless_links_of lines) in
  let requested : list log_record :=
    if match environ w "LOCAL_MODE" with
       | Some v => (v =? "on")%string
       | None => false
       end
    then []
    else
      let github_token := environ w "GITHUB_TOKEN" in
      let headers :=
        match github_token with
        | Some tok =>
            if truthy github_token
            then [ ("Authorization", ("token " ++ tok)%string);
                   ("Accept", "application/vnd.github.v3.raw") ]
            else []
        | None => []
        end in
      match environ w "CONFIG_URL" with
      | None => []
      | Some url => request_log url (source_list_get w url headers 6)
      end in
  emit requested ;;;
  match attempt with
  | inr links => ret links
  | inl e =>
      if is_HTTPStatusError e then
        logger CRITICAL "GitHub fetch error: " (Some e) ;;;
        raise (HTTPException 404 "Config file not found")
      else if is_FileNotFoundError e then
        logger CRITICAL "" (Some e) ;;;
        raise (Unhandled e)
      else raise (Unhandled e)
  end.

Definition fetch_subscription (client_get : http_get) (sub_link sub_id : string)
  : task (option (list byte)) :=
  let r := client_get (sub_link ++ sub_id)%string 3 in
  {| done_at := arrival r;
     run :=
       emit (request_log (sub_link ++ sub_id)%string (outcome r)) ;;;
       match (sub <-- outcome r ;;
              _ <-- raise_for_status sub ;;
              b64decode (text sub)) with
       | inr decoded => ret (Some decoded)
       | inl e =>
           if is_HTTPError e then
             logger WARNING
               ("Can't get subscription url from " ++ sub_link ++ sub_id ++ ": ")%string
               (Some e) ;;;
             ret None
           else raise (Unhandled e)
       end |}.

Fixpoint enumerate_from {A} (k : nat) (l : list A) : list (nat * A) :=
  match l with
  | [] => []
  | a :: l' => (k, a) :: enumerate_from (S k) l'
  end.

Definition is_empty {A} (l : list A) : bool :=
  match l with [] => true | _ => false end.

Definition newline : list byte := [x0a].

(** [[x for x in tmp if x is not None]] *)
Definition not_None {A} (tmp : list (option A)) : list A :=
  flat_map (fun x => match x with Some b => [b] | None => [] end) tmp.

Definition merge_all (client : nat -> http_get)
           (sub_links vless_links : list string) (sub_id : string)
  : M (list byte) :=
  let decoded_subs :=
    map (fun '(k, sub_url) => fetch_subscription (client k) sub_url sub_id)
        (enumerate_from 0 sub_links) in
  tmp <- gather decoded_subs ;;
  let data := not_None tmp in
  (if is_empty data && is_empty vless_links then
     logger ERROR "No subscriptions or configurations available" None ;;;
     raise (HTTPException 500 "There is nothing to return")
   else if is_empty data then
     logger WARNING "No subscriptions available" None
   else ret tt) ;;;
  let encoded_vless_links := map encode vless_links in
  let merged_subs := List.concat data in
  let merged_configs := join newline encoded_vless_links in
  ret (merged_subs ++ merged_configs).

(** [fastapi.Response], as the handler builds it: the arguments of the
    constructor, with its default status code. *)
Record Response : Type := {
  status_code : Z;
  content : list byte;
  media_type : string;
  headers : list (string * string)
}.

(** [Response(content=..., media_type=..., headers=...)]: the constructor
    encodes the name and the value of every header as latin-1 and raises
    [UnicodeEncodeError] when one of them has a character outside it.  What
    the server does with the response once the handler has returned it is
    outside the program. *)
Definition Response_init (content : list byte) (media_type : string)
           (headers : list (string * string)) : exception + Response :=
  if forallb (fun kv => latin1 (fst kv) && latin1 (snd kv)) headers
  then inr {| status_code := 200; content := content;
              media_type := media_type; headers := headers |}
  else inl UnicodeEncodeError.

Definition main (w : World) (sub_id : string) : M Response :=
  links <- fetch_links w ;;
  let '(sub_links, vless_links) := links in
  (if is_empty sub_links && is_empty vless_links then
     logger ERROR "No subscriptions or configurations available" None ;;;
     raise (HTTPException 500 "There is nothing to return")
   else ret tt) ;;;
  result <- merge_all (subscription_get w) sub_links vless_links sub_id ;;
  let global_sub := b64encode result in
  let headers := build_optional_headers w in
  match Response_init global_sub "text/plain" headers with
  | inr response => ret response
  | inl e => raise (Unhandled e)
  end.

(** * The vocabulary of the statements *)

(** What a coroutine returned or raised. *)
Definition result {A} (c : M A) : raised + A := snd c.

(** The log of the program after a coroutine: the records of its own
    [logger] calls and those of httpx, in the order in which they were
    written. *)
Definition logged {A} (c : M A) : list log_record := fst c.

Definition nothing_to_return : raised :=
  HTTPException 500 "There is nothing to return".

Definition config_not_found : raised := HTTPException 404 "Config file not found".

Definition clean_left (s : chars) : Prop := drop_any whitespace s = None.

Definition clean_right (s : chars) : Prop :=
  drop_any (map (@rev ascii) whitespace) (rev s) = None.

(** A text that consists only of whitespace characters (the empty text is
    one). *)
Definition only_whitespace (s : string) : Prop :=
  exists ws : list chars,
    Forall (fun w => In w whitespace) ws /\ list_ascii_of_string s = List.concat ws.

Definition prefix_free (pats : list chars) : Prop :=
  forall p q r, In p pats -> In q pats -> q = p ++ r -> r = [].

(** A configuration value that is unset, empty or made of whitespace. *)
Definition blank (value : option string) : Prop :=
  match value with
  | None => True
  | Some s => only_whitespace s
  end.

(** The comprehension of [fetch_links] for the prefix [p]. *)
Definition pick (p : string) (lines : list string) : list string :=
  map strip (filter (fun line => startswith (strip line) p) lines).

(** The header names and the configuration variable of each. *)
Definition header_variables : list (string * string) :=
  [ ("profile-title", "PROFILE_TITLE");
    ("support-url", "SUPPORT_URL");
    ("profile-web-page-url", "PROFILE_WEB_PAGE_URL");
    ("announce", "ANNOUNCE");
    ("profile-update-interval", "PROFILE_UPDATE_INTERVAL");
    ("providerid", "PROVIDER_ID") ].

(** The value a header is built from: for [profile-title] the variable
    [PROFILE_TITLE] and, when that one gives nothing, [SUB_NAME]. *)
Definition header_value (w : World) (key : string) : option string :=
  if ("profile-title" =? key)%string then
    or_else (_get_env w "PROFILE_TITLE") (_get_env w "SUB_NAME")
  else if ("support-url" =? key)%string then _get_env w "SUPPORT_URL"
  else if ("profile-web-page-url" =? key)%string then _get_env w "PROFILE_WEB_PAGE_URL"
  else if ("announce" =? key)%string then _get_env w "ANNOUNCE"
  else if ("profile-update-interval" =? key)%string then _get_env w "PROFILE_UPDATE_INTERVAL"
  else if ("providerid" =? key)%string then _get_env w "PROVIDER_ID"
  else None.

(** A header of the response, or its absence: in the dict built by
    [build_optional_headers] and in every response of the handler. *)
Definition response_header (w : World) (key : string) (value : option string)
  : Prop :=
  dict_get key (build_optional_headers w) = value /\
  forall (sub_id : string) (r : Response),
    result (main w sub_id) = inr r -> dict_get key (headers r) = value.

(** The exception of the first task of [ts] that raises one. *)
Fixpoint first_raised {A} (ts : list (task A)) : option raised :=
  match ts with
  | [] => None
  | t :: ts' =>
      match result (run t) with
      | inl e => Some e
      | inr _ => first_raised ts'
      end
  end.

Definition returns {A} (t : task A) : Prop := exists a, result (run t) = inr a.

Definition raisesb {A} (t : task A) : bool :=
  match result (run t) with inl _ => true | inr _ => false end.

(** The tasks that raise, in the order of the list. *)
Definition raising {A} (ts : list (task A)) : list (task A) := filter raisesb ts.

Definition earlier {A} (t u : task A) : Prop := done_at t <= done_at u.

(** The result of [fetch_subscription], by cases on what the request gives. *)
Definition fetched (client_get : http_get) (sub_link sub_id : string)
  : raised + option (list byte) :=
  match outcome (client_get (sub_link ++ sub_id)%string 3) with
  | inl e => if is_HTTPError e then inr None else inl (Unhandled e)
  | inr sub =>
      match raise_for_status sub with
      | inl _ => inr None
      | inr _ =>
          match b64decode (text sub) with
          | inl e => inl (Unhandled e)
          | inr decoded => inr (Some decoded)
          end
      end
  end.

Definition subscription_tasks (client : nat -> http_get)
           (sub_links : list string) (sub_id : string)
  : list (task (option (list byte))) :=
  map (fun '(k, sub_url) => fetch_subscription (client k) sub_url sub_id)
      (enumerate_from 0 sub_links).

(** The outcome of every fetch, in the order of the endpoint list. *)
Definition fetch_results (client : nat -> http_get)
           (sub_links : list string) (sub_id : string)
  : list (raised + option (list byte)) :=
  map (fun t => result (run t)) (subscription_tasks client sub_links sub_id).

(** The payloads of the fetches that succeeded, in the same order. *)
Definition payloads (rs : list (raised + option (list byte))) : list (list byte) :=
  flat_map (fun r => match r with inr (Some b) => [b] | _ => [] end) rs.

Definition merged (data : list (list byte)) (vless_links : list string)
  : list byte :=
  List.concat data ++ join newline (map encode vless_links).

Definition all_bytes : list byte :=
  map (fun n => byte_of_N (N.of_nat n)) (seq 0 256).

(** The client as the fan-out sees it once the request number [n] is left
    out. *)
Definition skip (n : nat) (client : nat -> http_get) : nat -> http_get :=
  fun k => if (k <? n)%nat then client k else client (S k).

(** A request that ends in a transport error or in a status outside 2xx. *)
Definition fetch_fails (r : reply) : Prop :=
  match outcome r with
  | inl e => is_TransportError e = true
  | inr sub => (http_status sub < 200 \/ 299 < http_status sub)%Z
  end.

(** [os.getenv('LOCAL_MODE') == 'on'] *)
Definition local_mode (w : World) : bool :=
  match environ w "LOCAL_MODE" with
  | Some v => (v =? "on")%string
  | None => false
  end.

(** What reading the local file can raise. *)
Definition is_read_error (e : exception) : bool :=
  match e with
  | FileNotFoundError | PermissionError | UnicodeDecodeError => true
  | _ => false
  end.

(** The headers [fetch_links] sends with the request for the source list. *)
Definition github_headers (github_token : option string) : list (string * string) :=
  match github_token with
  | Some tok =>
      if truthy github_token
      then [ ("Authorization", ("token " ++ tok)%string);
             ("Accept", "application/vnd.github.v3.raw") ]
      else []
  | None => []
  end.

(** The lines [fetch_links] reads in its [try] block, or what reading them
    raises. *)
Definition source_lines (w : World) : exception + list string :=
  if local_mode w then configs_txt w
  else
    match environ w "CONFIG_URL" with
    | None => inl TypeError
    | Some url =>
        response <-- source_list_get w url (github_headers (environ w "GITHUB_TOKEN")) 6 ;;
        _ <-- raise_for_status response ;;
        inr (splitlines (text response))
    end.

(** A line that is neither an endpoint nor an inline entry. *)
Definition unrecognised (line : string) : Prop :=
  startswith (strip line) "http" = false /\
  startswith (strip line) "vless://" = false.

(** A text without whitespace at either end. *)
Definition trimmed (t : string) : Prop :=
  strip t = t /\
  clean_left (list_ascii_of_string t) /\ clean_right (list_ascii_of_string t).

Definition is_some {A} (o : option A) : bool :=
  match o with Some _ => true | None => false end.

(** A byte the base64 decoder looks at: a digit of the alphabet or the pad.
    Every other byte is skipped. *)
Definition significant (c : byte) : bool :=
  Byte.eqb c BASE64_PAD || is_some (table_a2b c).

(** [s.isascii()] *)
Definition isascii (s : string) : bool :=
  forallb (fun c => (Byte.to_N c <? 128)%N) (list_byte_of_string s).

Definition success (status : Z) : Prop := (200 <= status <= 299)%Z.



(** The response of the handler for a merged payload. *)
Definition response_for (w : World) (merged_bytes : list byte) : Response :=
  {| status_code := 200; content := b64encode merged_bytes;
     media_type := "text/plain"; headers := build_optional_headers w |}.

(** A byte of a base64 text: a digit of the alphabet or the pad. *)
Definition base64_byte (c : byte) : Prop := In c alphabet \/ c = BASE64_PAD.

(** The items of a dict built from the keys [l] that have a value. *)
Definition optional_items {K V} (f : K -> option V) (l : list K) : list (K * V) :=
  flat_map (fun k => match f k with Some v => [(k, v)] | None => [] end) l.

(** The headers of [w] can be sent: the constructor of the response takes
    them. *)
Definition sendable (w : World) : bool :=
  forallb (fun kv => latin1 (fst kv) && latin1 (snd kv)) (build_optional_headers w).

(** What the handler ends with for a merged payload: the response, or the
    [UnicodeEncodeError] of its constructor. *)
Definition respond (w : World) (merged_bytes : list byte) : raised + Response :=
  match Response_init (b64encode merged_bytes) "text/plain" (build_optional_headers w) with
  | inr response => inr response
  | inl e => inl (Unhandled e)
  end.

(** What the request of [fetch_links] leaves in the log. *)
Definition source_request_log (w : World) : list log_record :=
  if local_mode w then []
  else
    match environ w "CONFIG_URL" with
    | None => []
    | Some url =>
        request_log url
          (source_list_get w url (github_headers (environ w "GITHUB_TOKEN")) 6)
    end.

(** A record written by the program itself, not by httpx. *)
Definition own_record (r : log_record) : bool :=
  match r with Log _ _ _ => true | HTTP_Request _ _ => false end.




(** * Deployments, used to exercise the statements *)

Definition LF : string := String "010" "".

Definition answer (t : nat) (status : Z) (body : string) : reply :=
  {| arrival := t; outcome := inr {| http_status := status; text := body |} |}.

Definition failure (t : nat) (e : exception) : reply :=
  {| arrival := t; outcome := inl e |}.

Definition scenario_endpoint : string := "https://sub.example/".

Definition scenario_inline : string := "vless://user@host:443?x=1".

(** Local mode, one subscription endpoint that answers with the base64 text
    of [A], one inline entry; no [PROFILE_TITLE], a [SUB_NAME], and a
    [SUPPORT_URL] made of spaces. *)
Definition demo_world : World :=
  {| environ := fun name =>
       dict_get name [ ("LOCAL_MODE", "on"); ("SUB_NAME", " Demo ");
                       ("SUPPORT_URL", "  "); ("ANNOUNCE", "hello") ];
     configs_txt :=
       inr [ ("https://sub.example/" ++ LF)%string;
             ("vless://user@host:443?x=1" ++ LF)%string ];
     source_list_get := fun _ _ _ => inl ConnectError;
     subscription_get := fun _ url _ =>
       if (url =? "https://sub.example/abc")%string
       then answer 1 200 "QQ=="
       else failure 1 ConnectError |}.

(** Remote mode with a token: the source list is served only to a request
    that carries the token, with lines ended in several ways. *)
Definition remote_world : World :=
  {| environ := fun name =>
       dict_get name [ ("CONFIG_URL", "https://raw.example/configs.txt");
                       ("GITHUB_TOKEN", "t0ken") ];
     configs_txt := inl FileNotFoundError;
     source_list_get := fun url headers _ =>
       if (url =? "https://raw.example/configs.txt")%string
          && match dict_get "Authorization" headers with
             | Some v => (v =? "token t0ken")%string
             | None => false
             end
       then inr {| http_status := 200;
                   text := ("https://sub.example/" ++ String "013" LF
                            ++ LF ++ " not a source" ++ LF
                            ++ "vless://user@host:443?x=1")%string |}
       else inr {| http_status := 404; text := "Not Found" |};
     subscription_get := fun _ _ _ => answer 1 200 "QQ==" |}.

(** Endpoint [a] answers late with the payload [A], endpoint [b] answers
    early with [B]. *)
Definition slow_then_fast : nat -> http_get :=
  fun _ url _ =>
    if (url =? "https://a.example/id")%string then answer 9 200 "QQ=="
    else answer 1 200 "Qg==".

(** One endpoint answers 200 with a text that is not complete base64, the
    other one answers properly, and there is an inline entry. *)
Definition garbled_world : World :=
  {| environ := fun name => dict_get name [("LOCAL_MODE", "on")];
     configs_txt :=
       inr [ ("https://bad.example/" ++ LF)%string;
             ("https://sub.example/" ++ LF)%string;
             (scenario_inline ++ LF)%string ];
     source_list_get := fun _ _ _ => inl ConnectError;
     subscription_get := fun _ url _ =>
       if (url =? "https://bad.example/abc")%string
       then answer 1 200 "QQ"
       else answer 2 200 "QQ==" |}.

(** Remote mode; the request for the source list runs into a timeout. *)
Definition unreachable_world : World :=
  {| environ := fun name =>
       dict_get name [("CONFIG_URL", "https://raw.example/configs.txt")];
     configs_txt := inl FileNotFoundError;
     source_list_get := fun _ _ _ => inl ConnectTimeout;
     subscription_get := fun _ _ _ => failure 1 ConnectError |}.

(** Remote mode; the server of the source list answers 404. *)
Definition missing_world : World :=
  {| environ := fun name =>
       dict_get name [ ("CONFIG_URL", "https://raw.example/configs.txt");
                       ("GITHUB_TOKEN", "t0ken") ];
     configs_txt := inl FileNotFoundError;
     source_list_get := fun _ _ _ => inr {| http_status := 404; text := "Not Found" |};
     subscription_get := fun _ _ _ => failure 1 ConnectError |}.

(** Local mode without the file. *)
Definition no_file_world : World :=
  {| environ := fun name => dict_get name [("LOCAL_MODE", "on")];
     configs_txt := inl FileNotFoundError;
     source_list_get := fun _ _ _ => inl ConnectError;
     subscription_get := fun _ _ _ => failure 1 ConnectError |}.

(** Local mode; the first endpoint is down, the second one answers. *)
Definition flaky_world : World :=
  {| environ := fun name => dict_get name [("LOCAL_MODE", "on")];
     configs_txt :=
       inr [ ("https://down.example/" ++ LF)%string;
             ("https://sub.example/" ++ LF)%string;
             (scenario_inline ++ LF)%string ];
     source_list_get := fun _ _ _ => inl ConnectError;
     subscription_get := fun _ url _ =>
       if (url =? "https://down.example/abc")%string
       then failure 1 ConnectTimeout
       else answer 2 200 "QQ==" |}.

(** The same deployment without the endpoint that is down. *)
Definition steady_world : World :=
  {| environ := environ flaky_world;
     configs_txt :=
       inr [ ("https://sub.example/" ++ LF)%string;
             (scenario_inline ++ LF)%string ];
     source_list_get := source_list_get flaky_world;
     subscription_get := skip 0 (subscription_get flaky_world) |}.

(** Local mode; one endpoint that times out and a line that is neither an
    endpoint nor an inline entry. *)
Definition dead_world : World :=
  {| environ := fun name => dict_get name [("LOCAL_MODE", "on")];
     configs_txt :=
       inr [ ("https://down.example/" ++ LF)%string; ("# none" ++ LF)%string ];
     source_list_get := fun _ _ _ => inl ConnectError;
     subscription_get := fun _ _ _ => failure 1 ReadTimeout |}.

(** Local mode; one endpoint that answers 503 and two inline entries. *)
Definition inline_world : World :=
  {| environ := fun name => dict_get name [("LOCAL_MODE", "on")];
     configs_txt :=
       inr [ ("https://down.example/" ++ LF)%string;
             ("vless://a" ++ LF)%string; ("  vless://b" ++ LF)%string ];
     source_list_get := fun _ _ _ => inl ConnectError;
     subscription_get := fun _ _ _ => answer 1 503 "Service Unavailable" |}.

(** Remote mode without [CONFIG_URL]. *)
Definition unconfigured_world : World :=
  {| environ := fun _ => None;
     configs_txt := inr [];
     source_list_get := fun _ _ _ => inr {| http_status := 200; text := "" |};
     subscription_get := fun _ _ _ => answer 1 200 "QQ==" |}.

(** [remote_world] with another local file and other answers to the
    requests that [fetch_links] does not make. *)
Definition remote_world_elsewhere : World :=
  {| environ := environ remote_world;
     configs_txt := inr ["https://other.example/"];
     source_list_get := fun url headers timeout =>
       if (timeout =? 6)%nat then source_list_get remote_world url headers timeout
       else inl ReadTimeout;
     subscription_get := subscription_get remote_world |}.

(** Local mode; a file with an empty line, a line of blanks and a comment. *)
Definition blank_world : World :=
  {| environ := fun name => dict_get name [("LOCAL_MODE", "on")];
     configs_txt := inr [LF; ("   " ++ LF)%string; ("# nothing yet" ++ LF)%string];
     source_list_get := fun _ _ _ => inl ConnectError;
     subscription_get := fun _ _ _ => answer 1 200 "QQ==" |}.

(** The base64 text of [A], once as it is and once broken over lines. *)
Definition plain_get : http_get := fun _ _ => answer 1 200 "QQ==".

Definition wrapped_get : http_get :=
  fun _ _ => answer 5 200 ("Q" ++ LF ++ " Q=" ++ String "013" LF ++ "=" ++ LF)%string.

(** [slow_then_fast] with other answers to requests [merge_all] does not
    make: other addresses and other timeouts. *)
Definition slow_then_fast_elsewhere : nat -> http_get :=
  fun k url timeout =>
    if ((timeout =? 3)%nat
        && ((url =? "https://a.example/id") || (url =? "https://b.example/id"))%string)%bool
    then slow_then_fast k url timeout
    else failure 0 InvalidURL.


(** Local mode; one endpoint that answers 200 with an empty body, no inline
    entry. *)
Definition empty_body_world : World :=
  {| environ := fun name => dict_get name [("LOCAL_MODE", "on")];
     configs_txt := inr [("https://sub.example/" ++ LF)%string];
     source_list_get := fun _ _ _ => inl ConnectError;
     subscription_get := fun _ _ _ => answer 1 200 "" |}.

(** Remote mode with a token that the server does not take: it answers 404
    to the request that carries it and serves the list to every other one. *)
Definition wrong_token_world : World :=
  {| environ := fun name =>
       dict_get name [ ("CONFIG_URL", "https://raw.example/configs.txt");
                       ("GITHUB_TOKEN", "stale") ];
     configs_txt := inl FileNotFoundError;
     source_list_get := fun _ headers _ =>
       match dict_get "Authorization" headers with
       | Some v =>
           if (v =? "token stale")%string
           then inr {| http_status := 404; text := "Not Found" |}
           else inr {| http_status := 200; text := "https://sub.example/" |}
       | None => inr {| http_status := 200; text := "https://sub.example/" |}
       end;
     subscription_get := fun _ _ _ => answer 1 200 "QQ==" |}.

(** Local mode; the only endpoint answers 200 with a text that is not
    complete base64, and there is no inline entry. *)
Definition only_bad_world : World :=
  {| environ := fun name => dict_get name [("LOCAL_MODE", "on")];
     configs_txt := inr [("https://bad.example/" ++ LF)%string];
     source_list_get := fun _ _ _ => inl ConnectError;
     subscription_get := fun _ _ _ => answer 1 200 "QQ" |}.

(** The same with two inline entries. *)
Definition bad_inline_world : World :=
  {| environ := environ only_bad_world;
     configs_txt :=
       inr [ ("https://bad.example/" ++ LF)%string;
             ("vless://a" ++ LF)%string; ("vless://b" ++ LF)%string ];
     source_list_get := source_list_get only_bad_world;
     subscription_get := subscription_get only_bad_world |}.

(** The Cyrillic capital letter Pe (U+041F), in UTF-8. *)
Definition cyrillic_pe : string := String "208" (String "159" "").

(** [inline_world] with a [SUB_NAME] in Cyrillic. *)
Definition cyrillic_world : World :=
  {| environ := fun name =>
       dict_get name [("LOCAL_MODE", "on"); ("SUB_NAME", cyrillic_pe)];
     configs_txt := configs_txt inline_world;
     source_list_get := source_list_get inline_world;
     subscription_get := subscription_get inline_world |}.

(** [empty_body_world] with a [SUB_NAME] in Latin with an accent: the
    letter e with acute (U+00E9), which latin-1 has. *)
Definition accent_world : World :=
  {| environ := fun name =>
       dict_get name [ ("LOCAL_MODE", "on");
                       ("SUB_NAME", String "195" (String "169" "")) ];
     configs_txt := configs_txt empty_body_world;
     source_list_get := source_list_get empty_body_world;
     subscription_get := subscription_get empty_body_world |}.

(** * Properties *)

(** ** The library functions on examples *)

Example strip_ascii :
  strip (String "032" (String "009" ("https://a.example/" ++ String "010" "")%string))
  = "https://a.example/".
Proof. reflexivity. Qed.

(** A no-break space (U+00A0) and an ideographic space (U+3000) are
    whitespace, a zero-width space (U+200B) is not. *)
Example strip_unicode :
  strip (string_of_list_ascii (utf8 160 ++ utf8 12288 ++ utf8 8203 ++ utf8 8192))
  = string_of_list_ascii (utf8 8203).
Proof. reflexivity. Qed.

Example splitlines_examples :
  splitlines ("ab" ++ String "010" "")%string = ["ab"] /\ splitlines "" = [] /\
  splitlines (String "010" "") = [""] /\
  splitlines (string_of_list_ascii
                ["a"; "013"; "010"; "b"; "013"; "013"; "010"; "c"]%char)
  = ["a"; "b"; ""; "c"].
Proof. repeat split; reflexivity. Qed.

Example utf8_examples :
  utf8 10 = ["010"]%char /\ utf8 133 = ["194"; "133"]%char /\
  utf8 8232 = ["226"; "128"; "168"]%char /\
  utf8 12288 = ["227"; "128"; "128"]%char /\
  utf8 128512 = ["240"; "159"; "152"; "128"]%char.
Proof. repeat split; reflexivity. Qed.

Example b64encode_examples :
  b64encode (encode "A") = encode "QQ==" /\
  b64encode (encode "AB") = encode "QUI=" /\
  b64encode (encode "ABCD") = encode "QUJDRA==" /\
  b64encode (encode "Avless://user@host:443?x=1")
  = encode "QXZsZXNzOi8vdXNlckBob3N0OjQ0Mz94PTE=".
Proof. repeat split; reflexivity. Qed.

Example b64decode_examples :
  b64decode "QQ==" = inr (encode "A") /\
  b64decode "QQ" = inl binascii_Error /\
  b64decode "Q" = inl binascii_Error /\
  b64decode "QQ=" = inl binascii_Error /\
  b64decode "=QQ==" = inr (encode "A") /\
  b64decode "Q Q = =" = inr (encode "A") /\
  b64decode "QQ=Q" = inl binascii_Error /\
  b64decode "QQ==QQ==" = inr (encode "A") /\
  b64decode "QQ=x=" = inr [x41; x0c] /\
  b64decode "QUI=QQ" = inr (encode "AB") /\
  b64decode "====" = inr [] /\
  b64decode "" = inr [] /\
  b64decode (string_of_list_ascii (utf8 233)) = inl ValueError.
Proof. repeat split; reflexivity. Qed.

Example remote_links :
  result (fetch_links remote_world)
  = inr (["https://sub.example/"], ["vless://user@host:443?x=1"]).
Proof. reflexivity. Qed.

(** ** Trimming *)

Section Dropping.

Variable pats : list chars.

Lemma drop_prefix_spec (p s r : chars) :
  drop_prefix p s = Some r <-> s = p ++ r.
Proof.
  revert s; induction p as [|a p IH]; intros s; simpl.
  - split; [intros [= ->]; reflexivity | intros ->; reflexivity].
  - destruct s as [|b s].
    + split; [discriminate | intros [=]].
    + destruct (Ascii.eqb_spec a b) as [->|ne].
      * rewrite IH. split; [intros ->; reflexivity | intros [= ->]; reflexivity].
      * split; [discriminate | intros [= e _]; congruence].
Qed.

Lemma drop_prefix_extend (p a d r : chars) :
  drop_prefix p a = Some r -> drop_prefix p (a ++ d) = Some (r ++ d).
Proof.
  intros H. apply drop_prefix_spec in H. subst a.
  apply drop_prefix_spec. now rewrite app_assoc.
Qed.

Lemma drop_any_none (s : chars) :
  drop_any pats s = None <-> Forall (fun p => drop_prefix p s = None) pats.
Proof.
  induction pats as [|p ps IH]; simpl.
  - split; [constructor | reflexivity].
  - destruct (drop_prefix p s) eqn:E.
    + split; [discriminate | intros H; inversion H; congruence].
    + rewrite IH. split; [now constructor | now inversion 1].
Qed.

Lemma drop_any_some (s r : chars) :
  drop_any pats s = Some r -> exists p, In p pats /\ s = p ++ r.
Proof.
  induction pats as [|p ps IH]; simpl; [discriminate|].
  destruct (drop_prefix p s) eqn:E.
  - intros [= ->]. exists p. split; [now left | now apply drop_prefix_spec].
  - intros H. destruct (IH H) as (q & Hq & ->). exists q. split; [now right | reflexivity].
Qed.

(** A text that starts with no pattern has no prefix that starts with one. *)
Lemma drop_any_none_prefix (a d : chars) :
  drop_any pats (a ++ d) = None -> drop_any pats a = None.
Proof.
  rewrite !drop_any_none. apply Forall_impl. intros p H.
  destruct (drop_prefix p a) eqn:E; [|reflexivity].
  rewrite (drop_prefix_extend _ _ d _ E) in H. discriminate.
Qed.

Lemma drop_all_fixed (n : nat) (s : chars) :
  drop_any pats s = None -> drop_all pats n s = s.
Proof. destruct n; simpl; [reflexivity|]. now intros ->. Qed.

Lemma drop_all_suffix (n : nat) (s : chars) :
  exists d, s = d ++ drop_all pats n s.
Proof.
  revert s; induction n as [|n IH]; intros s; simpl.
  - now exists [].
  - destruct (drop_any pats s) as [r|] eqn:E; [|now exists []].
    destruct (drop_any_some _ _ E) as (p & _ & ->).
    destruct (IH r) as (d & Hd). exists (p ++ d).
    now rewrite <- app_assoc, <- Hd.
Qed.

Hypothesis pats_nonempty : Forall (fun p => p <> []) pats.

(** The length of the text is fuel enough: the result starts with no
    pattern. *)
Lemma drop_all_done (n : nat) (s : chars) :
  List.length s <= n -> drop_any pats (drop_all pats n s) = None.
Proof.
  revert s; induction n as [|n IH]; intros s Hn; simpl.
  - destruct s; [|simpl in Hn; lia].
    apply drop_any_none. revert pats_nonempty. apply Forall_impl.
    intros [|a p] Hp; [congruence | reflexivity].
  - destruct (drop_any pats s) as [r|] eqn:E; [|exact E].
    apply IH. destruct (drop_any_some _ _ E) as (p & Hp & ->).
    rewrite Forall_forall in pats_nonempty.
    specialize (pats_nonempty p Hp).
    destruct p; [congruence|]. simpl in Hn. rewrite length_app in Hn. lia.
Qed.

End Dropping.

Lemma whitespace_nonempty : Forall (fun p : chars => p <> []) whitespace.
Proof. repeat constructor; discriminate. Qed.

Lemma rev_whitespace_nonempty :
  Forall (fun p : chars => p <> []) (map (@rev ascii) whitespace).
Proof. repeat constructor; discriminate. Qed.

Lemma linebreaks_nonempty : Forall (fun p : chars => p <> []) linebreaks.
Proof. repeat constructor; discriminate. Qed.

(** [splitlines_from] does not depend on its fuel once there is more of it
    than characters to read: the fuel [splitlines] gives is enough. *)
Lemma splitlines_from_fuel (n : nat) :
  forall (m : nat) (line s : chars),
    List.length s < n -> List.length s < m ->
    splitlines_from n line s = splitlines_from m line s.
Proof.
  induction n as [|n IH]; intros m line s Hn Hm; [lia|].
  destruct m as [|m]; [lia|]. cbn [splitlines_from].
  destruct s as [|c s]; [reflexivity|].
  destruct (drop_any linebreaks (c :: s)) as [r|] eqn:E.
  - f_equal. destruct (drop_any_some _ _ _ E) as (p & Hp & Hs).
    pose proof linebreaks_nonempty as NE. rewrite Forall_forall in NE.
    specialize (NE p Hp). apply (f_equal (@List.length ascii)) in Hs.
    rewrite length_app in Hs. destruct p; [congruence|].
    simpl in Hs, Hn, Hm. apply IH; lia.
  - simpl in Hn, Hm. apply IH; lia.
Qed.

Lemma lstrip_clean (s : chars) : clean_left (lstrip s).
Proof. apply drop_all_done; [exact whitespace_nonempty | lia]. Qed.

Lemma rstrip_clean (s : chars) : clean_right (rstrip s).
Proof.
  unfold clean_right, rstrip. rewrite rev_involutive.
  apply drop_all_done; [exact rev_whitespace_nonempty | rewrite length_rev; lia].
Qed.

Lemma lstrip_fixed (s : chars) : clean_left s -> lstrip s = s.
Proof. apply drop_all_fixed. Qed.

Lemma rstrip_fixed (s : chars) : clean_right s -> rstrip s = s.
Proof.
  intros H. unfold rstrip. rewrite drop_all_fixed by exact H.
  apply rev_involutive.
Qed.

Lemma rstrip_prefix (s : chars) : exists d, s = rstrip s ++ d.
Proof.
  unfold rstrip.
  destruct (drop_all_suffix (map (@rev ascii) whitespace) (List.length s) (rev s))
    as (d & Hd).
  exists (rev d). rewrite <- rev_app_distr, <- Hd. symmetry. apply rev_involutive.
Qed.

Lemma rstrip_keeps_clean_left (s : chars) : clean_left s -> clean_left (rstrip s).
Proof.
  intros H. destruct (rstrip_prefix s) as (d & Hd).
  unfold clean_left in *. rewrite Hd in H.
  now apply drop_any_none_prefix in H.
Qed.

(** [strip] is idempotent. *)
Lemma strip_strip (s : string) : strip (strip s) = strip s.
Proof.
  unfold strip. rewrite list_ascii_of_string_of_list_ascii. f_equal.
  set (x := lstrip (list_ascii_of_string s)).
  assert (Hx : clean_left x) by apply lstrip_clean.
  rewrite (lstrip_fixed (rstrip x)) by now apply rstrip_keeps_clean_left.
  apply rstrip_fixed, rstrip_clean.
Qed.

(** No text starts with both prefixes. *)
Lemma http_not_vless (t : string) :
  startswith t "http" = true -> startswith t "vless://" = false.
Proof.
  unfold startswith. destruct t as [|c t]; cbn [prefix]; [discriminate|].
  destruct (ascii_dec "h" c) as [<-|]; [|discriminate].
  intros _. destruct (ascii_dec "v" "h"); [discriminate | reflexivity].
Qed.

(** ** Classification of the source lines *)

Lemma sub_links_of_app (a b : list string) :
  sub_links_of (a ++ b) = sub_links_of a ++ sub_links_of b.
Proof. unfold sub_links_of. now rewrite filter_app, map_app. Qed.

Lemma vless_links_of_app (a b : list string) :
  vless_links_of (a ++ b) = vless_links_of a ++ vless_links_of b.
Proof. unfold vless_links_of. now rewrite filter_app, map_app. Qed.

Section Reclassify.

Variable p : string.

(** Trimmed lines that start with [p] are all kept, as they are. *)
Lemma pick_kept (l : list string) :
  Forall (fun t => strip t = t /\ startswith t p = true) l -> pick p l = l.
Proof.
  induction 1 as [|t l [Ht Hp] _ IH]; [reflexivity|].
  unfold pick in *. simpl. rewrite Ht, Hp. simpl. now rewrite Ht, IH.
Qed.

(** Trimmed lines that do not start with [p] are all dropped. *)
Lemma pick_dropped (l : list string) :
  Forall (fun t => strip t = t /\ startswith t p = false) l -> pick p l = [].
Proof.
  induction 1 as [|t l [Ht Hp] _ IH]; [reflexivity|].
  unfold pick in *. simpl. now rewrite Ht, Hp.
Qed.

Lemma pick_trimmed (lines : list string) :
  Forall (fun t => strip t = t /\ startswith t p = true) (pick p lines).
Proof.
  unfold pick. induction lines as [|line lines IH]; simpl; [constructor|].
  destruct (startswith (strip line) p) eqn:E; [|exact IH].
  simpl. constructor; [|exact IH]. split; [apply strip_strip | exact E].
Qed.

End Reclassify.

Lemma sub_links_trimmed (lines : list string) :
  Forall (fun t => strip t = t /\ startswith t "http" = true) (sub_links_of lines).
Proof. apply pick_trimmed. Qed.

Lemma vless_links_trimmed (lines : list string) :
  Forall (fun t => strip t = t /\ startswith t "vless://" = true)
         (vless_links_of lines).
Proof. apply pick_trimmed. Qed.

Lemma vless_not_http (t : string) :
  startswith t "vless://" = true -> startswith t "http" = false.
Proof.
  intros H. destruct (startswith t "http") eqn:E; [|reflexivity].
  apply http_not_vless in E. congruence.
Qed.

Lemma sub_links_of_sub_links (lines : list string) :
  sub_links_of (sub_links_of lines) = sub_links_of lines.
Proof. apply (pick_kept "http"), sub_links_trimmed. Qed.

Lemma vless_links_of_vless_links (lines : list string) :
  vless_links_of (vless_links_of lines) = vless_links_of lines.
Proof. apply (pick_kept "vless://"), vless_links_trimmed. Qed.

Lemma vless_links_of_sub_links (lines : list string) :
  vless_links_of (sub_links_of lines) = [].
Proof.
  apply (pick_dropped "vless://").
  eapply Forall_impl; [|apply sub_links_trimmed].
  intros t [Ht Hp]. split; [exact Ht | now apply http_not_vless].
Qed.

Lemma sub_links_of_vless_links (lines : list string) :
  sub_links_of (vless_links_of lines) = [].
Proof.
  apply (pick_dropped "http").
  eapply Forall_impl; [|apply vless_links_trimmed].
  intros t [Ht Hp]. split; [exact Ht | now apply vless_not_http].
Qed.

(** C8. Classification is total and idempotent.  Lines are classified one
    by one ([_app]); the trimmed text of a line goes to the endpoint list
    exactly when it starts with [http], to the inline list exactly when it
    starts with [vless://], and nowhere otherwise, and it never goes to
    both; classifying the two lists again, one after the other or each on
    its own, gives the same two lists. *)
Theorem classification_total_idempotent :
  (forall line : string,
      sub_links_of [line]
      = (if startswith (strip line) "http" then [strip line] else []) /\
      vless_links_of [line]
      = (if startswith (strip line) "vless://" then [strip line] else []) /\
      (sub_links_of [line] = [] \/ vless_links_of [line] = [])) /\
  (forall before after : list string,
      sub_links_of (before ++ after)
      = sub_links_of before ++ sub_links_of after /\
      vless_links_of (before ++ after)
      = vless_links_of before ++ vless_links_of after) /\
  (forall lines : list string,
      sub_links_of (sub_links_of lines ++ vless_links_of lines)
      = sub_links_of lines /\
      vless_links_of (sub_links_of lines ++ vless_links_of lines)
      = vless_links_of lines /\
      sub_links_of (sub_links_of lines) = sub_links_of lines /\
      vless_links_of (sub_links_of lines) = [] /\
      sub_links_of (vless_links_of lines) = [] /\
      vless_links_of (vless_links_of lines) = vless_links_of lines).
Proof.
  split; [|split].
  - intros line. unfold sub_links_of, vless_links_of. simpl.
    destruct (startswith (strip line) "http") eqn:E.
    + rewrite (http_not_vless _ E). auto.
    + destruct (startswith (strip line) "vless://"); auto.
  - intros before after. split; [apply sub_links_of_app | apply vless_links_of_app].
  - intros lines.
    rewrite sub_links_of_app, vless_links_of_app.
    rewrite sub_links_of_sub_links, sub_links_of_vless_links,
      vless_links_of_sub_links, vless_links_of_vless_links, app_nil_r.
    repeat split; reflexivity.
Qed.

(** ** Blank texts *)

(** Checked by computation on the table: no whitespace character's
    encoding starts with another's. *)
Lemma whitespace_prefix_free : prefix_free whitespace.
Proof.
  assert (H : forallb (fun p => forallb (fun q =>
                match drop_prefix p q with
                | Some r => is_empty r
                | None => true
                end) whitespace) whitespace = true) by reflexivity.
  intros p q r Hp Hq E.
  rewrite forallb_forall in H. specialize (H p Hp).
  rewrite forallb_forall in H. specialize (H q Hq).
  apply drop_prefix_spec in E. rewrite E in H.
  destruct r; [reflexivity | discriminate].
Qed.

Lemma drop_any_first (pats : list chars) (w rest : chars) :
  prefix_free pats -> In w pats -> drop_any pats (w ++ rest) = Some rest.
Proof.
  intros PF Hw.
  destruct (drop_any pats (w ++ rest)) as [r|] eqn:E.
  - destruct (drop_any_some _ _ _ E) as (p & Hp & Hpr).
    apply app_eq_app in Hpr. destruct Hpr as (t & [[-> ->] | [-> ->]]).
    + rewrite (PF p (p ++ t) t Hp Hw eq_refl). reflexivity.
    + rewrite (PF w (w ++ t) t Hw Hp eq_refl). reflexivity.
  - rewrite drop_any_none, Forall_forall in E. specialize (E w Hw).
    rewrite (proj2 (drop_prefix_spec w (w ++ rest) rest) eq_refl) in E.
    discriminate.
Qed.

Lemma drop_all_concat (pats : list chars) :
  prefix_free pats -> Forall (fun p => p <> []) pats ->
  forall (parts : list chars) (n : nat),
    Forall (fun w => In w pats) parts ->
    List.length (List.concat parts) <= n ->
    drop_all pats n (List.concat parts) = [].
Proof.
  intros PF NE parts. induction parts as [|w parts IH]; intros n Hin Hn.
  - simpl. apply drop_all_fixed. apply drop_any_none.
    revert NE. apply Forall_impl. intros [|a p] Hp; [congruence | reflexivity].
  - inversion Hin as [|? ? Hw Hrest]; subst.
    rewrite Forall_forall in NE. pose proof (NE w Hw) as Hne.
    simpl in *. rewrite length_app in Hn.
    destruct n as [|n]; [destruct w; [congruence | simpl in Hn; lia]|].
    simpl. rewrite (drop_any_first pats w _ PF Hw).
    apply IH; [exact Hrest|]. destruct w; [congruence | simpl in Hn; lia].
Qed.

(** What [drop_all] removes is a sequence of patterns. *)
Lemma drop_all_removed (pats : list chars) (n : nat) (s : chars) :
  exists parts, Forall (fun w => In w pats) parts /\
                s = List.concat parts ++ drop_all pats n s.
Proof.
  revert s; induction n as [|n IH]; intros s; simpl.
  - exists []. split; [constructor | reflexivity].
  - destruct (drop_any pats s) as [r|] eqn:E.
    + destruct (drop_any_some _ _ _ E) as (p & Hp & ->).
      destruct (IH r) as (parts & Hparts & Hr).
      exists (p :: parts). split; [now constructor|].
      simpl. now rewrite <- app_assoc, <- Hr.
    + exists []. split; [constructor | reflexivity].
Qed.

Lemma lstrip_only_whitespace (parts : list chars) :
  Forall (fun w => In w whitespace) parts -> lstrip (List.concat parts) = [].
Proof.
  intros H. apply (drop_all_concat whitespace);
    [exact whitespace_prefix_free | exact whitespace_nonempty | exact H | lia].
Qed.

Lemma concat_rev_parts (parts : list chars) :
  rev (List.concat parts) = List.concat (map (@rev ascii) (rev parts)).
Proof.
  induction parts as [|w parts IH]; [reflexivity|].
  simpl. rewrite rev_app_distr, IH, map_app, concat_app. simpl.
  now rewrite app_nil_r.
Qed.

(** [strip] gives the empty text exactly on the texts made of whitespace. *)
Lemma strip_empty_iff (s : string) : strip s = "" <-> only_whitespace s.
Proof.
  unfold strip, only_whitespace. split.
  - intros H.
    assert (E : rstrip (lstrip (list_ascii_of_string s)) = []).
    { rewrite <- (list_ascii_of_string_of_list_ascii (rstrip _)), H. reflexivity. }
    set (cs := list_ascii_of_string s) in *.
    destruct (drop_all_removed whitespace (List.length cs) cs) as (l & Hl & Hcs).
    fold (lstrip cs) in Hcs. set (x := lstrip cs) in *.
    destruct (drop_all_removed (map (@rev ascii) whitespace)
                (List.length x) (rev x)) as (r & Hr & Hx).
    unfold rstrip in E. apply (f_equal (@rev ascii)) in E.
    rewrite rev_involutive in E. change (rev (@nil ascii)) with (@nil ascii) in E.
    rewrite E, app_nil_r in Hx.
    apply (f_equal (@rev ascii)) in Hx. rewrite rev_involutive in Hx.
    exists (l ++ map (@rev ascii) (rev r)). split.
    + apply Forall_app. split; [exact Hl|].
      rewrite Forall_forall in *. intros w Hw.
      apply in_map_iff in Hw. destruct Hw as (v & <- & Hv).
      apply in_rev in Hv. specialize (Hr v Hv).
      apply in_map_iff in Hr. destruct Hr as (u & <- & Hu).
      now rewrite rev_involutive.
    + rewrite concat_app, <- concat_rev_parts, <- Hx. exact Hcs.
  - intros (parts & Hparts & ->).
    rewrite (lstrip_only_whitespace _ Hparts). reflexivity.
Qed.

Lemma _get_env_None (w : World) (name : string) :
  _get_env w name = None <-> blank (environ w name).
Proof.
  unfold _get_env, blank. destruct (environ w name) as [v|]; [|tauto].
  rewrite <- strip_empty_iff. unfold or_else, truthy.
  destruct (String.eqb_spec (strip v) ""); simpl; split; congruence.
Qed.

Lemma _get_env_Some (w : World) (name v : string) :
  _get_env w name = Some v ->
  v <> "" /\ exists raw, environ w name = Some raw /\ v = strip raw.
Proof.
  unfold _get_env. destruct (environ w name) as [raw|]; [|discriminate].
  unfold or_else, truthy.
  destruct (String.eqb_spec (strip raw) ""); simpl; [discriminate|].
  intros [= <-]. split; [assumption | now exists raw].
Qed.

(** ** Optional headers *)

Ltac env_case w name :=
  let v := fresh "v" in
  let E := fresh "E" in
  let ne := fresh "ne" in
  destruct (_get_env w name) as [v|] eqn:E;
  [ apply _get_env_Some in E; destruct E as [ne _];
    apply String.eqb_neq in ne | clear E ].

(** Looking a header up in the dict gives the value it is built from. *)
Lemma build_optional_headers_get (w : World) (key : string) :
  dict_get key (build_optional_headers w) = header_value w key.
Proof.
  unfold build_optional_headers, header_value, or_else.
  cbn [flat_map fst snd].
  env_case w "PROFILE_TITLE"; env_case w "SUB_NAME";
    env_case w "SUPPORT_URL"; env_case w "PROFILE_WEB_PAGE_URL";
    env_case w "ANNOUNCE"; env_case w "PROFILE_UPDATE_INTERVAL";
    env_case w "PROVIDER_ID";
    repeat first [ progress cbn [truthy negb app dict_get]
                 | match goal with
                   | H : (_ =? "")%string = false |- _ => rewrite H
                   end ];
    repeat match goal with
           | |- context [(?k =? key)%string] =>
               destruct (String.eqb_spec k key) as [<-|]
           end; reflexivity.
Qed.

(** No header has an empty value. *)
Lemma build_optional_headers_nonempty (w : World) :
  Forall (fun kv : string * string => snd kv <> "") (build_optional_headers w).
Proof.
  unfold build_optional_headers. apply Forall_flat_map.
  repeat constructor;
    match goal with
    | |- Forall _ (match snd (_, ?o) with _ => _ end) =>
        cbn [snd fst]; destruct o as [v|]; [|constructor];
        cbn [truthy]; destruct (String.eqb_spec v ""); cbn [negb];
        repeat constructor; assumption
    end.
Qed.

(** ** Results of coroutines *)

Lemma result_bind {A B} (c : M A) (k : A -> M B) :
  result (bind c k)
  = match result c with inl e => inl e | inr a => result (k a) end.
Proof.
  unfold result, bind. destruct c as [logs [e|a]]; simpl; [reflexivity|].
  now destruct (k a).
Qed.


(** The constructor of the response, by cases on the headers. *)
Lemma respond_cases (w : World) (merged_bytes : list byte) :
  respond w merged_bytes
  = if sendable w then inr (response_for w merged_bytes)
    else inl (Unhandled UnicodeEncodeError).
Proof.
  unfold respond, Response_init, sendable, response_for.
  now destruct (forallb _ (build_optional_headers w)).
Qed.

Lemma respond_inr (w : World) (merged_bytes : list byte) (r : Response) :
  respond w merged_bytes = inr r <->
  sendable w = true /\ r = response_for w merged_bytes.
Proof.
  rewrite respond_cases. destruct (sendable w).
  - split; [intros [= <-]; now split | intros [_ ->]; reflexivity].
  - split; [discriminate | intros [[=] _]].
Qed.

(** The result of the request handler, step by step. *)
Lemma main_result (w : World) (sub_id : string) :
  result (main w sub_id)
  = match result (fetch_links w) with
    | inl e => inl e
    | inr (sub_links, vless_links) =>
        if is_empty sub_links && is_empty vless_links then inl nothing_to_return
        else
          match result (merge_all (subscription_get w) sub_links vless_links sub_id) with
          | inl e => inl e
          | inr merged_bytes => respond w merged_bytes
          end
    end.
Proof.
  unfold main. rewrite result_bind.
  destruct (result (fetch_links w)) as [e|[sub_links vless_links]]; [reflexivity|].
  rewrite result_bind.
  destruct (is_empty sub_links && is_empty vless_links); [reflexivity|].
  cbn [result ret snd]. rewrite result_bind.
  destruct (result (merge_all _ _ _ _)) as [e|merged_bytes]; [reflexivity|].
  unfold respond. now destruct (Response_init _ _ _).
Qed.

(** A response, when there is one, carries the optional headers, status 200
    and the media type [text/plain]. *)
Lemma main_response (w : World) (sub_id : string) (r : Response) :
  result (main w sub_id) = inr r ->
  status_code r = 200%Z /\ media_type r = "text/plain" /\
  headers r = build_optional_headers w.
Proof.
  rewrite main_result.
  destruct (result (fetch_links w)) as [e|[sub_links vless_links]]; [discriminate|].
  destruct (is_empty sub_links && is_empty vless_links); [discriminate|].
  destruct (result (merge_all _ _ _ _)); [discriminate|].
  intros H. apply respond_inr in H. destruct H as [_ ->]. repeat split.
Qed.

(** ** The demo deployment *)

Example demo_headers :
  build_optional_headers demo_world = [("profile-title", "Demo"); ("announce", "hello")].
Proof. reflexivity. Qed.

Example demo_links :
  result (fetch_links demo_world)
  = inr (["https://sub.example/"], ["vless://user@host:443?x=1"]).
Proof. reflexivity. Qed.

Lemma not_only_whitespace (s : string) : strip s <> "" -> ~ only_whitespace s.
Proof. intros H W. apply H. now apply strip_empty_iff. Qed.

Lemma response_header_intro (w : World) (key : string) (value : option string) :
  header_value w key = value -> response_header w key value.
Proof.
  intros H. split.
  - now rewrite build_optional_headers_get.
  - intros sub_id r Hr. apply main_response in Hr. destruct Hr as (_ & _ & ->).
    now rewrite build_optional_headers_get.
Qed.

(** C9, as stated, fails for [profile-title]: with [PROFILE_TITLE] unset the
    header is still sent when [SUB_NAME] has a value. *)
Lemma optional_headers_blank_counterexample :
  In ("profile-title", "PROFILE_TITLE") header_variables /\
  blank (environ demo_world "PROFILE_TITLE") /\
  dict_get "profile-title" (build_optional_headers demo_world) = Some "Demo" /\
  exists r, result (main demo_world "abc") = inr r /\
            dict_get "profile-title" (headers r) = Some "Demo".
Proof.
  split; [now left|]. split; [exact I|]. split; [reflexivity|].
  eexists. split; reflexivity.
Qed.

(** C9 (amended). A header whose configuration variable is unset, empty or
    made of whitespace is absent from the response, where for
    [profile-title] both [PROFILE_TITLE] and [SUB_NAME] have to be so; and no
    header has an empty value. *)
Theorem optional_headers_blank_omitted (w : World) (key var : string)
  (Hkey : In (key, var) header_variables)
  (Hblank : blank (environ w var))
  (Hsub : key = "profile-title" -> blank (environ w "SUB_NAME")) :
  response_header w key None /\
  Forall (fun kv : string * string => snd kv <> "") (build_optional_headers w).
Proof.
  split; [|apply build_optional_headers_nonempty].
  apply response_header_intro.
  apply _get_env_None in Hblank.
  simpl in Hkey.
  repeat (destruct Hkey as [[= <- <-]|Hkey];
          [ unfold header_value; cbn [String.eqb Ascii.eqb Bool.eqb];
            try exact Hblank |]);
    [|contradiction].
  specialize (Hsub eq_refl). apply _get_env_None in Hsub.
  now rewrite Hblank, Hsub.
Qed.

Lemma optional_headers_blank_omitted_witness :
  In ("support-url", "SUPPORT_URL") header_variables /\
  blank (environ demo_world "SUPPORT_URL") /\
  (response_header demo_world "support-url" None /\
   Forall (fun kv : string * string => snd kv <> "")
          (build_optional_headers demo_world)).
Proof.
  assert (Hkey : In ("support-url", "SUPPORT_URL") header_variables)
    by (right; left; reflexivity).
  assert (Hblank : blank (environ demo_world "SUPPORT_URL")).
  { exists [[" "%char]; [" "%char]]. split; [|reflexivity].
    repeat constructor; simpl; tauto. }
  split; [exact Hkey|]. split; [exact Hblank|].
  apply (optional_headers_blank_omitted demo_world "support-url" "SUPPORT_URL"
           Hkey Hblank).
  discriminate.
Defined.

(** C10. The [profile-title] header is the trimmed [PROFILE_TITLE] when that
    variable has a value that is not blank; when it is unset or blank and
    [SUB_NAME] has a value that is not blank, the header is the trimmed
    [SUB_NAME]. *)
Theorem profile_title_fallback (w : World) :
  (forall title : string,
      environ w "PROFILE_TITLE" = Some title -> ~ only_whitespace title ->
      response_header w "profile-title" (Some (strip title))) /\
  (forall sub_name : string,
      blank (environ w "PROFILE_TITLE") ->
      environ w "SUB_NAME" = Some sub_name -> ~ only_whitespace sub_name ->
      response_header w "profile-title" (Some (strip sub_name))).
Proof.
  split.
  - intros title Ht Hn. apply response_header_intro.
    unfold header_value. cbn [String.eqb Ascii.eqb Bool.eqb].
    rewrite <- strip_empty_iff in Hn.
    unfold _get_env at 1 2. rewrite Ht. unfold or_else at 2 3. cbn [truthy].
    apply String.eqb_neq in Hn. rewrite Hn. cbn [negb].
    unfold or_else. cbn [truthy]. now rewrite Hn.
  - intros sub_name Hb Hs Hn. apply response_header_intro.
    unfold header_value. cbn [String.eqb Ascii.eqb Bool.eqb].
    apply _get_env_None in Hb. rewrite Hb.
    unfold or_else at 1. cbn [truthy].
    rewrite <- strip_empty_iff in Hn.
    unfold _get_env. rewrite Hs. unfold or_else. cbn [truthy].
    apply String.eqb_neq in Hn. now rewrite Hn.
Qed.

Lemma profile_title_fallback_witness :
  blank (environ demo_world "PROFILE_TITLE") /\
  environ demo_world "SUB_NAME" = Some " Demo " /\
  ~ only_whitespace " Demo " /\
  response_header demo_world "profile-title" (Some "Demo").
Proof.
  assert (Hn : ~ only_whitespace " Demo ")
    by (apply not_only_whitespace; discriminate).
  split; [exact I|]. split; [reflexivity|]. split; [exact Hn|].
  exact (proj2 (profile_title_fallback demo_world) " Demo " I eq_refl Hn).
Defined.

(** ** The fan-out *)

Section Gather.

Context {A : Type}.

Lemma await_each_result (ts : list (task A)) :
  result (await_each ts)
  = match first_raised ts with Some e => inl e | None => inr tt end.
Proof.
  induction ts as [|t ts IH]; [reflexivity|].
  cbn [await_each first_raised]. rewrite result_bind.
  now destruct (result (run t)).
Qed.

Lemma first_raised_None (ts : list (task A)) :
  first_raised ts = None <-> Forall returns ts.
Proof.
  induction ts as [|t ts IH]; simpl.
  - split; [constructor | reflexivity].
  - destruct (result (run t)) as [e|a] eqn:E.
    + split; [discriminate|]. inversion 1 as [|? ? [a Ha] _]; congruence.
    + rewrite IH. split; [intros H; constructor; [now exists a | exact H]
                         | now inversion 1].
Qed.

Lemma first_raised_Some (ts : list (task A)) (e : raised) :
  first_raised ts = Some e -> exists t, In t ts /\ result (run t) = inl e.
Proof.
  induction ts as [|t ts IH]; simpl; [discriminate|].
  destruct (result (run t)) as [e'|a] eqn:E.
  - intros [= ->]. exists t. split; [now left | exact E].
  - intros H. destruct (IH H) as (u & Hu & Hr). exists u. split; [now right | exact Hr].
Qed.

Lemma insert_by_time_In (t u : task A) (l : list (task A)) :
  In u (insert_by_time t l) <-> u = t \/ In u l.
Proof.
  induction l as [|v l IH]; simpl.
  - intuition congruence.
  - destruct (done_at t <=? done_at v)%nat; simpl; [intuition congruence|].
    rewrite IH. intuition congruence.
Qed.

(** Ordering by completion time keeps the tasks. *)
Lemma by_completion_In (u : task A) (ts : list (task A)) :
  In u (by_completion ts) <-> In u ts.
Proof.
  induction ts as [|t ts IH]; simpl; [tauto|].
  rewrite insert_by_time_In, IH. intuition congruence.
Qed.

Lemma gather_result (ts : list (task A)) :
  result (gather ts)
  = match first_raised (by_completion ts) with
    | Some e => inl e
    | None => inr (returned ts)
    end.
Proof.
  unfold gather. rewrite result_bind, await_each_result.
  now destruct (first_raised (by_completion ts)).
Qed.

(** [gather] returns exactly when every task does, and then with the
    values in the order of the tasks. *)
Lemma gather_returns (ts : list (task A)) (vs : list A) :
  result (gather ts) = inr vs <-> Forall returns ts /\ vs = returned ts.
Proof.
  rewrite gather_result.
  destruct (first_raised (by_completion ts)) as [e|] eqn:E.
  - split; [discriminate|]. intros [H _]. exfalso.
    apply first_raised_Some in E. destruct E as (t & Ht & Hr).
    rewrite by_completion_In in Ht. rewrite Forall_forall in H.
    destruct (H t Ht) as [a Ha]. congruence.
  - apply first_raised_None in E. split.
    + intros [= <-]. split; [|reflexivity].
      rewrite Forall_forall in *. intros t Ht. apply E. now rewrite by_completion_In.
    + intros [_ ->]. reflexivity.
Qed.

(** What [gather] raises was raised by one of the tasks. *)
Lemma gather_raises (ts : list (task A)) (e : raised) :
  result (gather ts) = inl e -> exists t, In t ts /\ result (run t) = inl e.
Proof.
  rewrite gather_result.
  destruct (first_raised (by_completion ts)) as [e'|] eqn:E; [|discriminate].
  intros [= ->]. apply first_raised_Some in E. destruct E as (t & Ht & Hr).
  exists t. split; [now rewrite <- by_completion_In | exact Hr].
Qed.

End Gather.

(** ** One subscription fetch *)

Lemma a2b_loop_error (data : list byte) (quad_pos leftchar pads : N)
      (bin_data : list byte) (e : exception) :
  a2b_loop data quad_pos leftchar pads bin_data = inl e -> e = binascii_Error.
Proof.
  revert quad_pos leftchar pads bin_data.
  induction data as [|c rest IH]; intros quad_pos leftchar pads bin_data; cbn [a2b_loop].
  - destruct (quad_pos =? 0)%N; [discriminate | now intros [= <-]].
  - destruct (Byte.eqb c BASE64_PAD).
    + destruct (2 <=? quad_pos)%N; [|apply IH].
      destruct (4 <=? quad_pos + (pads + 1))%N; [discriminate | apply IH].
    + destruct (table_a2b c); [|apply IH].
      destruct (quad_pos =? 0)%N; [apply IH|].
      destruct (quad_pos =? 1)%N; [apply IH|].
      destruct (quad_pos =? 2)%N; apply IH.
Qed.

(** What [b64decode] raises is a [binascii.Error] or a [ValueError]:
    nothing that [except httpx.HTTPError] catches. *)
Lemma b64decode_error (s : string) (e : exception) :
  b64decode s = inl e -> is_HTTPError e = false.
Proof.
  unfold b64decode, a2b_base64.
  destruct (forallb _ _).
  - intros H. apply a2b_loop_error in H. now subst e.
  - now intros [= <-].
Qed.

Lemma fetch_subscription_result (client_get : http_get) (sub_link sub_id : string) :
  result (run (fetch_subscription client_get sub_link sub_id))
  = fetched client_get sub_link sub_id.
Proof.
  unfold fetch_subscription, fetched. cbn [run and_then].
  destruct (outcome (client_get (sub_link ++ sub_id)%string 3)) as [e|sub];
    cbn [and_then].
  - destruct (is_HTTPError e); reflexivity.
  - unfold raise_for_status.
    destruct ((200 <=? http_status sub)%Z && (http_status sub <=? 299)%Z);
      cbn [and_then]; [|reflexivity].
    destruct (b64decode (text sub)) as [e|decoded] eqn:E; [|reflexivity].
    now rewrite (b64decode_error _ _ E).
Qed.

(** ** The aggregator *)

Lemma fetch_results_fetched (client : nat -> http_get)
      (sub_links : list string) (sub_id : string) :
  fetch_results client sub_links sub_id
  = map (fun '(k, sub_url) => fetched (client k) sub_url sub_id)
        (enumerate_from 0 sub_links).
Proof.
  unfold fetch_results, subscription_tasks. rewrite map_map.
  apply map_ext. intros [k u]. apply fetch_subscription_result.
Qed.

Lemma not_None_returned {A} (ts : list (task (option A))) :
  not_None (returned ts)
  = flat_map (fun r => match r with inr (Some b) => [b] | _ => [] end)
             (map (fun t => result (run t)) ts).
Proof.
  induction ts as [|t ts IH]; [reflexivity|].
  unfold not_None, returned in *. cbn [flat_map map].
  unfold result at 1. rewrite flat_map_app, IH.
  destruct (snd (run t)) as [e|[b|]]; reflexivity.
Qed.

Lemma Forall_returns_results {A} (ts : list (task A)) :
  Forall returns ts
  <-> Forall (fun r => exists a, r = inr a) (map (fun t => result (run t)) ts).
Proof. rewrite Forall_map. reflexivity. Qed.

(** The result of [merge_all], step by step. *)
Lemma merge_all_result (client : nat -> http_get)
      (sub_links vless_links : list string) (sub_id : string) :
  result (merge_all client sub_links vless_links sub_id)
  = match result (gather (subscription_tasks client sub_links sub_id)) with
    | inl e => inl e
    | inr tmp =>
        if is_empty (not_None tmp) && is_empty vless_links
        then inl nothing_to_return
        else inr (merged (not_None tmp) vless_links)
    end.
Proof.
  unfold merge_all. fold (subscription_tasks client sub_links sub_id).
  rewrite result_bind.
  destruct (result (gather _)) as [e|tmp]; [reflexivity|].
  rewrite result_bind.
  destruct (is_empty (not_None tmp)) eqn:E1; destruct (is_empty vless_links) eqn:E2;
    reflexivity.
Qed.

(** When every fetch comes back, with a payload or with nothing, the
    aggregator returns the merged payload, unless there is nothing at all. *)
Lemma merge_all_returns (client : nat -> http_get)
      (sub_links vless_links : list string) (sub_id : string) :
  let rs := fetch_results client sub_links sub_id in
  Forall (fun r => exists o, r = inr o) rs ->
  result (merge_all client sub_links vless_links sub_id)
  = if is_empty (payloads rs) && is_empty vless_links
    then inl nothing_to_return
    else inr (merged (payloads rs) vless_links).
Proof.
  intros rs H. rewrite merge_all_result.
  unfold rs, fetch_results in *.
  apply Forall_returns_results in H.
  rewrite (proj2 (gather_returns _ _) (conj H eq_refl)).
  unfold payloads. now rewrite <- not_None_returned.
Qed.

(** When the aggregator returns or raises [HTTPException], every fetch
    came back. *)
Lemma merge_all_inv (client : nat -> http_get)
      (sub_links vless_links : list string) (sub_id : string) :
  (exists payload, result (merge_all client sub_links vless_links sub_id) = inr payload)
  \/ (exists status detail,
         result (merge_all client sub_links vless_links sub_id)
         = inl (HTTPException status detail)) ->
  Forall (fun r => exists o, r = inr o) (fetch_results client sub_links sub_id).
Proof.
  rewrite merge_all_result. unfold fetch_results.
  rewrite <- Forall_returns_results.
  destruct (result (gather _)) as [e|tmp] eqn:E.
  - intros [[p [=]] | (st & d & [= ->])].
    apply gather_raises in E. destruct E as (t & Ht & Hr).
    unfold subscription_tasks in Ht. apply in_map_iff in Ht.
    destruct Ht as ([k u] & <- & _).
    rewrite fetch_subscription_result in Hr. unfold fetched in Hr.
    destruct (outcome _) as [e|sub].
    + destruct (is_HTTPError e); discriminate.
    + destruct (raise_for_status sub); [discriminate|].
      destruct (b64decode (text sub)); discriminate.
  - intros _. now apply gather_returns in E.
Qed.

(** ** Base64: decoding undoes encoding *)

Section Base64_roundtrip.

Lemma all_bytes_complete (b : byte) : In b all_bytes.
Proof.
  apply in_map_iff. exists (N.to_nat (Byte.to_N b)). split.
  - rewrite N2Nat.id. unfold byte_of_N.
    pose proof (Byte.to_N_bounded b) as Hb.
    rewrite N.mod_small by lia. now rewrite Byte.of_to_N.
  - apply in_seq. pose proof (Byte.to_N_bounded b). lia.
Qed.

Lemma for_all_bytes (P : byte -> bool) :
  forallb P all_bytes = true -> forall b, P b = true.
Proof.
  intros H b. rewrite forallb_forall in H. apply H, all_bytes_complete.
Qed.

(** A digit of the alphabet decodes to its value and is not the pad. *)
Lemma table_a2b_b2a (v : N) :
  (v < 64)%N ->
  Byte.eqb (table_b2a v) BASE64_PAD = false /\ table_a2b (table_b2a v) = Some v.
Proof.
  intros Hv.
  assert (H : forallb (fun n =>
                let v := N.of_nat n in
                negb (Byte.eqb (table_b2a v) BASE64_PAD)
                && match table_a2b (table_b2a v) with
                   | Some u => (u =? v)%N
                   | None => false
                   end) (seq 0 64) = true) by (vm_compute; reflexivity).
  rewrite forallb_forall in H.
  specialize (H (N.to_nat v)). rewrite N2Nat.id in H.
  assert (Hin : In (N.to_nat v) (seq 0 64)) by (apply in_seq; lia).
  apply H in Hin. apply andb_true_iff in Hin. destruct Hin as [H1 H2].
  split; [now apply negb_true_iff in H1|].
  destruct (table_a2b (table_b2a v)) as [u|]; [|discriminate].
  apply N.eqb_eq in H2. now subst.
Qed.

(** One step of the decoder on a digit of value [v]. *)
Lemma a2b_loop_digit (v : N) (rest : list byte) (quad_pos leftchar pads : N)
      (bin_data : list byte) :
  (v < 64)%N ->
  a2b_loop (table_b2a v :: rest) quad_pos leftchar pads bin_data
  = if (quad_pos =? 0)%N then a2b_loop rest 1%N v 0%N bin_data
    else if (quad_pos =? 1)%N then
      a2b_loop rest 2%N (N.land v 15) 0%N
        (bin_data ++ [byte_of_N (N.lor (N.shiftl leftchar 2) (N.shiftr v 4))])
    else if (quad_pos =? 2)%N then
      a2b_loop rest 3%N (N.land v 3) 0%N
        (bin_data ++ [byte_of_N (N.lor (N.shiftl leftchar 4) (N.shiftr v 2))])
    else
      a2b_loop rest 0%N 0%N 0%N
        (bin_data ++ [byte_of_N (N.lor (N.shiftl leftchar 6) v)]).
Proof.
  intros Hv. destruct (table_a2b_b2a v Hv) as [H1 H2].
  cbn [a2b_loop]. now rewrite H1, H2.
Qed.

Lemma for_all_bytes2 (P : byte -> byte -> bool) :
  forallb (fun a => forallb (P a) all_bytes) all_bytes = true ->
  forall a b, P a b = true.
Proof.
  intros H a b. apply (for_all_bytes (P a)).
  apply (for_all_bytes (fun a => forallb (P a) all_bytes) H).
Qed.

Ltac split_checks H :=
  repeat match type of H with
         | (_ && _)%bool = true =>
             let H' := fresh "H" in
             apply andb_true_iff in H; destruct H as [H H']; split_checks H'
         | (_ <? _)%N = true => apply N.ltb_lt in H
         | (_ =? _)%N = true => apply N.eqb_eq in H
         | Byte.eqb _ _ = true => apply Byte.byte_dec_bl in H
         end.

(** The digits of the first two bytes of a group, and what the decoder
    makes of them: checked on every pair of bytes. *)
Lemma first_byte (a b : byte) :
  let s1 := N.shiftr (Byte.to_N a) 2 in
  let s2 := N.lor (N.shiftl (N.land (Byte.to_N a) 3) 4) (N.shiftr (Byte.to_N b) 4) in
  (s1 < 64)%N /\ (s2 < 64)%N /\
  byte_of_N (N.lor (N.shiftl s1 2) (N.shiftr s2 4)) = a /\
  N.land s2 15 = N.shiftr (Byte.to_N b) 4.
Proof.
  assert (H : forallb (fun a => forallb (fun b =>
                let s1 := N.shiftr (Byte.to_N a) 2 in
                let s2 := N.lor (N.shiftl (N.land (Byte.to_N a) 3) 4)
                                (N.shiftr (Byte.to_N b) 4) in
                (s1 <? 64)%N
                && ((s2 <? 64)%N
                && (Byte.eqb (byte_of_N (N.lor (N.shiftl s1 2) (N.shiftr s2 4))) a
                && (N.land s2 15 =? N.shiftr (Byte.to_N b) 4)%N)))
              all_bytes) all_bytes = true) by (vm_compute; reflexivity).
  pose proof (for_all_bytes2 _ H a b) as C. cbv beta zeta in C |- *.
  split_checks C. repeat split; assumption.
Qed.

(** The same for the last two bytes of a group of three. *)
Lemma last_bytes (b c : byte) :
  let s3 := N.lor (N.shiftl (N.land (Byte.to_N b) 15) 2) (N.shiftr (Byte.to_N c) 6) in
  let s4 := N.land (Byte.to_N c) 63 in
  (s3 < 64)%N /\ (s4 < 64)%N /\
  byte_of_N (N.lor (N.shiftl (N.shiftr (Byte.to_N b) 4) 4) (N.shiftr s3 2)) = b /\
  byte_of_N (N.lor (N.shiftl (N.land s3 3) 6) s4) = c.
Proof.
  assert (H : forallb (fun b => forallb (fun c =>
                let s3 := N.lor (N.shiftl (N.land (Byte.to_N b) 15) 2)
                                (N.shiftr (Byte.to_N c) 6) in
                let s4 := N.land (Byte.to_N c) 63 in
                (s3 <? 64)%N
                && ((s4 <? 64)%N
                && (Byte.eqb (byte_of_N (N.lor (N.shiftl (N.shiftr (Byte.to_N b) 4) 4)
                                               (N.shiftr s3 2))) b
                && Byte.eqb (byte_of_N (N.lor (N.shiftl (N.land s3 3) 6) s4)) c)))
              all_bytes) all_bytes = true) by (vm_compute; reflexivity).
  pose proof (for_all_bytes2 _ H b c) as C. cbv beta zeta in C |- *.
  split_checks C. repeat split; assumption.
Qed.

(** A group of one byte: its two digits. *)
Lemma lone_byte (a : byte) :
  let s1 := N.shiftr (Byte.to_N a) 2 in
  let s2 := N.shiftl (N.land (Byte.to_N a) 3) 4 in
  (s1 < 64)%N /\ (s2 < 64)%N /\
  byte_of_N (N.lor (N.shiftl s1 2) (N.shiftr s2 4)) = a.
Proof.
  assert (H : forallb (fun a =>
                let s1 := N.shiftr (Byte.to_N a) 2 in
                let s2 := N.shiftl (N.land (Byte.to_N a) 3) 4 in
                (s1 <? 64)%N
                && ((s2 <? 64)%N
                && Byte.eqb (byte_of_N (N.lor (N.shiftl s1 2) (N.shiftr s2 4))) a))
              all_bytes = true) by (vm_compute; reflexivity).
  pose proof (for_all_bytes _ H a) as C. cbv beta zeta in C |- *.
  split_checks C. repeat split; assumption.
Qed.

(** A group of two bytes: its third digit. *)
Lemma second_byte (b : byte) :
  let s3 := N.shiftl (N.land (Byte.to_N b) 15) 2 in
  (s3 < 64)%N /\
  byte_of_N (N.lor (N.shiftl (N.shiftr (Byte.to_N b) 4) 4) (N.shiftr s3 2)) = b.
Proof.
  assert (H : forallb (fun b =>
                let s3 := N.shiftl (N.land (Byte.to_N b) 15) 2 in
                (s3 <? 64)%N
                && Byte.eqb (byte_of_N (N.lor (N.shiftl (N.shiftr (Byte.to_N b) 4) 4)
                                              (N.shiftr s3 2))) b)
              all_bytes = true) by (vm_compute; reflexivity).
  pose proof (for_all_bytes _ H b) as C. cbv beta zeta in C |- *.
  split_checks C. repeat split; assumption.
Qed.

Lemma a2b_loop_b64encode (n : nat) :
  forall (s : list byte) (leftchar pads : N) (bin_data : list byte),
    List.length s <= n ->
    a2b_loop (b64encode s) 0%N leftchar pads bin_data = inr (bin_data ++ s).
Proof.
  induction n as [|n IH]; intros s leftchar pads bin_data Hn.
  - destruct s; [|simpl in Hn; lia]. cbn. now rewrite app_nil_r.
  - destruct s as [|a [|b [|c s]]].
    + cbn. now rewrite app_nil_r.
    + destruct (lone_byte a) as (H1 & H2 & Ha).
      cbn [b64encode].
      rewrite (a2b_loop_digit _ _ _ _ _ _ H1). cbn [N.eqb].
      rewrite (a2b_loop_digit _ _ _ _ _ _ H2). cbn [N.eqb Pos.eqb].
      rewrite Ha. reflexivity.
    + destruct (first_byte a b) as (H1 & H2 & Ha & Hl).
      destruct (second_byte b) as (H3 & Hb).
      cbn [b64encode].
      rewrite (a2b_loop_digit _ _ _ _ _ _ H1). cbn [N.eqb].
      rewrite (a2b_loop_digit _ _ _ _ _ _ H2). cbn [N.eqb Pos.eqb].
      rewrite (a2b_loop_digit _ _ _ _ _ _ H3). cbn [N.eqb Pos.eqb].
      rewrite Ha, Hl, Hb, <- app_assoc. reflexivity.
    + destruct (first_byte a b) as (H1 & H2 & Ha & Hl).
      destruct (last_bytes b c) as (H3 & H4 & Hb & Hc).
      cbn [b64encode].
      rewrite (a2b_loop_digit _ _ _ _ _ _ H1). cbn [N.eqb].
      rewrite (a2b_loop_digit _ _ _ _ _ _ H2). cbn [N.eqb Pos.eqb].
      rewrite (a2b_loop_digit _ _ _ _ _ _ H3). cbn [N.eqb Pos.eqb].
      rewrite (a2b_loop_digit _ _ _ _ _ _ H4). cbn [N.eqb Pos.eqb].
      rewrite Ha, Hl, Hb, Hc.
      rewrite IH by (simpl in Hn; lia).
      rewrite <- !app_assoc. reflexivity.
Qed.

(** [b64decode(b64encode(s)) == s] *)
Lemma b64decode_b64encode (s : list byte) :
  b64decode_bytes (b64encode s) = inr s.
Proof.
  unfold b64decode_bytes, a2b_base64.
  now rewrite (a2b_loop_b64encode (List.length s)).
Qed.

End Base64_roundtrip.

(** ** Merge order *)

Lemma enumerate_from_nth {A} (l : list A) (k0 k : nat) :
  nth_error (enumerate_from k0 l) k
  = option_map (fun a => (k0 + k, a)) (nth_error l k).
Proof.
  revert k0 k. induction l as [|a l IH]; intros k0 [|k]; cbn; try reflexivity.
  - now rewrite Nat.add_0_r.
  - rewrite IH. now rewrite Nat.add_succ_r.
Qed.

(** The k-th outcome is the outcome of the fetch of the k-th endpoint. *)
Lemma fetch_results_nth (client : nat -> http_get)
      (sub_links : list string) (sub_id : string) (k : nat) :
  nth_error (fetch_results client sub_links sub_id) k
  = option_map
      (fun sub_url => result (run (fetch_subscription (client k) sub_url sub_id)))
      (nth_error sub_links k).
Proof.
  unfold fetch_results, subscription_tasks.
  rewrite !nth_error_map, enumerate_from_nth.
  now destruct (nth_error sub_links k).
Qed.

(** The outcomes depend on what the requests give, not on when. *)
Lemma fetch_results_outcomes (client client' : nat -> http_get)
      (sub_links : list string) (sub_id : string) :
  (forall k url timeout,
      outcome (client' k url timeout) = outcome (client k url timeout)) ->
  fetch_results client' sub_links sub_id = fetch_results client sub_links sub_id.
Proof.
  intros H. rewrite !fetch_results_fetched. apply map_ext.
  intros [k u]. unfold fetched. now rewrite H.
Qed.

Lemma payload_of_merge_all (client : nat -> http_get)
      (sub_links vless_links : list string) (sub_id : string)
      (payload : list byte) :
  result (merge_all client sub_links vless_links sub_id) = inr payload ->
  let rs := fetch_results client sub_links sub_id in
  Forall (fun r => exists o, r = inr o) rs /\
  is_empty (payloads rs) && is_empty vless_links = false /\
  payload = merged (payloads rs) vless_links.
Proof.
  intros H rs.
  assert (F : Forall (fun r => exists o, r = inr o) rs)
    by (apply (merge_all_inv client sub_links vless_links sub_id); left; now exists payload).
  split; [exact F|].
  rewrite (merge_all_returns client sub_links vless_links sub_id F) in H.
  fold rs in H.
  destruct (is_empty (payloads rs) && is_empty vless_links); [discriminate|].
  split; [reflexivity | congruence].
Qed.

(** C1. The merged payload is the concatenation of the payloads of the
    successful fetches, in the order of the endpoint list, directly followed
    by the inline entries joined by one newline byte.  The k-th outcome
    belongs to the k-th endpoint; whenever the aggregator returns a payload
    it is that one; it does return it when every fetch comes back and there
    is something to return; and the payload does not depend on the times
    at which the answers arrive. *)
Theorem merge_order (client : nat -> http_get)
        (sub_links vless_links : list string) (sub_id : string) :
  let rs := fetch_results client sub_links sub_id in
  let expected :=
    List.concat (payloads rs) ++ join newline (map encode vless_links) in
  (forall k : nat,
      nth_error rs k
      = option_map
          (fun sub_url => result (run (fetch_subscription (client k) sub_url sub_id)))
          (nth_error sub_links k)) /\
  (forall payload : list byte,
      result (merge_all client sub_links vless_links sub_id) = inr payload ->
      payload = expected) /\
  (Forall (fun r => exists o, r = inr o) rs ->
   payloads rs <> [] \/ vless_links <> [] ->
   result (merge_all client sub_links vless_links sub_id) = inr expected) /\
  (forall client' : nat -> http_get,
      (forall k url timeout,
          outcome (client' k url timeout) = outcome (client k url timeout)) ->
      forall payload : list byte,
        result (merge_all client sub_links vless_links sub_id) = inr payload ->
        result (merge_all client' sub_links vless_links sub_id) = inr payload).
Proof.
  intros rs expected. split; [|split; [|split]].
  - apply fetch_results_nth.
  - intros payload H. now apply payload_of_merge_all in H.
  - intros F Hne.
    rewrite (merge_all_returns client sub_links vless_links sub_id F). fold rs.
    destruct Hne as [Hne|Hne].
    + destruct (payloads rs); [congruence | reflexivity].
    + destruct vless_links; [congruence|]. now rewrite andb_false_r.
  - intros client' Hsame payload H.
    apply payload_of_merge_all in H. destruct H as (F & Hne & ->).
    pose proof (fetch_results_outcomes client client' sub_links sub_id Hsame) as E.
    rewrite <- E in F.
    rewrite (merge_all_returns client' sub_links vless_links sub_id F).
    rewrite E. cbv zeta in Hne. now rewrite Hne.
Qed.

Lemma merge_order_witness :
  result (merge_all slow_then_fast ["https://a.example/"; "https://b.example/"]
                    ["vless://x"; "vless://y"] "id")
  = inr (encode ("ABvless://x" ++ LF ++ "vless://y")) /\
  encode ("ABvless://x" ++ LF ++ "vless://y")
  = List.concat
      (payloads (fetch_results slow_then_fast
                   ["https://a.example/"; "https://b.example/"] "id"))
    ++ join newline (map encode ["vless://x"; "vless://y"]).
Proof.
  split; [reflexivity|].
  apply (proj1 (proj2 (merge_order slow_then_fast
                         ["https://a.example/"; "https://b.example/"]
                         ["vless://x"; "vless://y"] "id"))).
  reflexivity.
Defined.

(** ** The end-to-end scenario *)

(** C2, as stated, fails: in the scenario the merged bytes are not
    [A], a newline and the inline entry, and the body of the response is
    not the base64 text of those bytes. *)
Lemma end_to_end_counterexample :
  result (fetch_links demo_world) = inr ([scenario_endpoint], [scenario_inline]) /\
  subscription_get demo_world 0 "https://sub.example/abc" 3
  = answer 1 200 (string_of_list_byte (b64encode (encode "A"))) /\
  result (merge_all (subscription_get demo_world)
                    [scenario_endpoint] [scenario_inline] "abc")
  <> inr (encode ("A" ++ LF ++ scenario_inline)) /\
  exists r, result (main demo_world "abc") = inr r /\
            content r <> b64encode (encode ("A" ++ LF ++ scenario_inline)).
Proof.
  split; [reflexivity|]. split; [reflexivity|]. split; [discriminate|].
  eexists. split; [reflexivity | discriminate].
Qed.

(** C2 (amended). In the scenario the merged bytes are [A] directly followed
    by the inline entry, with no newline between them.  The handler ends
    with the constructor of the response for those bytes: when the optional
    headers can be sent, the response has status 200 and the base64 text of
    those bytes as its body; otherwise the constructor raises and there is
    no response.  Whatever response there is has that body. *)
Theorem end_to_end (w : World) (sub : httpx_Response)
  (Hlinks : result (fetch_links w) = inr ([scenario_endpoint], [scenario_inline]))
  (Hget : outcome (subscription_get w 0 "https://sub.example/abc" 3) = inr sub)
  (Hok : raise_for_status sub = inr tt)
  (Htext : text sub = string_of_list_byte (b64encode (encode "A"))) :
  result (merge_all (subscription_get w) [scenario_endpoint] [scenario_inline] "abc")
  = inr (encode ("A" ++ scenario_inline)) /\
  result (main w "abc") = respond w (encode ("A" ++ scenario_inline)) /\
  (sendable w = true ->
   result (main w "abc")
   = inr {| status_code := 200;
            content := b64encode (encode ("A" ++ scenario_inline));
            media_type := "text/plain";
            headers := build_optional_headers w |}) /\
  (sendable w = false -> result (main w "abc") = inl (Unhandled UnicodeEncodeError)) /\
  (forall r : Response,
      result (main w "abc") = inr r ->
      status_code r = 200%Z /\
      content r = b64encode (encode ("A" ++ scenario_inline))).
Proof.
  assert (R : fetch_results (subscription_get w) [scenario_endpoint] "abc"
              = [inr (Some (encode "A"))]).
  { rewrite fetch_results_fetched. cbn [enumerate_from map].
    unfold fetched. cbn [scenario_endpoint append].
    now rewrite Hget, Hok, Htext. }
  assert (M : result (merge_all (subscription_get w)
                                [scenario_endpoint] [scenario_inline] "abc")
              = inr (encode ("A" ++ scenario_inline))).
  { rewrite merge_all_returns; rewrite R; [reflexivity|].
    repeat constructor. now exists (Some (encode "A")). }
  assert (R' : result (main w "abc") = respond w (encode ("A" ++ scenario_inline))).
  { rewrite main_result, Hlinks. cbn [is_empty andb]. now rewrite M. }
  split; [exact M|]. split; [exact R'|].
  rewrite R', respond_cases. split; [|split].
  - now intros ->.
  - now intros ->.
  - destruct (sendable w); [|discriminate]. intros r [= <-]. now split.
Qed.

Lemma end_to_end_witness :
  result (fetch_links demo_world) = inr ([scenario_endpoint], [scenario_inline]) /\
  result (merge_all (subscription_get demo_world)
                    [scenario_endpoint] [scenario_inline] "abc")
  = inr (encode "Avless://user@host:443?x=1") /\
  result (main demo_world "abc")
  = inr {| status_code := 200;
           content := encode "QXZsZXNzOi8vdXNlckBob3N0OjQ0Mz94PTE=";
           media_type := "text/plain";
           headers := [("profile-title", "Demo"); ("announce", "hello")] |}.
Proof.
  split; [reflexivity|].
  destruct (end_to_end demo_world {| http_status := 200; text := "QQ==" |}
              eq_refl eq_refl eq_refl eq_refl) as (M & _ & S & _).
  split; [exact M | exact (S eq_refl)].
Defined.

(** ** A decode failure is not isolated *)

(** C3 fails on the code: a 2xx answer whose body does not decode makes
    [fetch_subscription] raise instead of returning [None]; the log has the
    record of httpx for the answered request and no warning for the failure;
    and the exception ends the whole request. *)
Theorem decode_failure_raises :
  raise_for_status {| http_status := 200; text := "QQ" |} = inr tt /\
  b64decode "QQ" = inl binascii_Error /\
  result (run (fetch_subscription (subscription_get garbled_world 0)
                                  "https://bad.example/" "abc"))
  = inl (Unhandled binascii_Error) /\
  logged (run (fetch_subscription (subscription_get garbled_world 0)
                                  "https://bad.example/" "abc"))
  = [HTTP_Request "https://bad.example/abc" {| http_status := 200; text := "QQ" |}] /\
  filter own_record
         (logged (run (fetch_subscription (subscription_get garbled_world 0)
                                          "https://bad.example/" "abc"))) = [] /\
  result (fetch_links garbled_world)
  = inr (["https://bad.example/"; "https://sub.example/"], [scenario_inline]) /\
  result (main garbled_world "abc") = inl (Unhandled binascii_Error).
Proof. repeat split; reflexivity. Qed.

(** The same for every answer: a decode failure is raised, never dropped. *)
Lemma decode_failure_unhandled (client_get : http_get) (sub_link sub_id : string)
      (sub : httpx_Response) (e : exception) :
  outcome (client_get (sub_link ++ sub_id)%string 3) = inr sub ->
  raise_for_status sub = inr tt ->
  b64decode (text sub) = inl e ->
  result (run (fetch_subscription client_get sub_link sub_id)) = inl (Unhandled e).
Proof.
  intros Hget Hok Hdec. rewrite fetch_subscription_result. unfold fetched.
  now rewrite Hget, Hok, Hdec.
Qed.

(** ** The source list, by cases *)

Lemma emit_then {A} (records : list log_record) (c : M A) :
  emit records ;;; c = (records ++ logged c, result c).
Proof. unfold emit, bind. now destruct c as [l [e|a]]. Qed.

(** [fetch_links], by cases on what reading the lines gives: the record of
    its request, if one was answered, then its own. *)
Lemma fetch_links_source_lines (w : World) :
  fetch_links w
  = match source_lines w with
    | inr lines =>
        (source_request_log w, inr (sub_links_of lines, vless_links_of lines))
    | inl e =>
        if is_HTTPStatusError e then
          (source_request_log w ++ [Log CRITICAL "GitHub fetch error: " (Some e)],
           inl config_not_found)
        else if is_FileNotFoundError e then
          (source_request_log w ++ [Log CRITICAL "" (Some e)], inl (Unhandled e))
        else (source_request_log w, inl (Unhandled e))
    end.
Proof.
  unfold fetch_links. cbv zeta.
  change (if match environ w "LOCAL_MODE" with
             | Some v => (v =? "on")%string
             | None => false
             end
          then configs_txt w
          else _) with (source_lines w).
  change (if match environ w "LOCAL_MODE" with
             | Some v => (v =? "on")%string
             | None => false
             end
          then []
          else _) with (source_request_log w).
  rewrite emit_then.
  destruct (source_lines w) as [e|lines]; cbn [and_then].
  - destruct (is_HTTPStatusError e); [reflexivity|].
    destruct (is_FileNotFoundError e); [reflexivity|].
    cbn [raise logged result fst snd]. now rewrite app_nil_r.
  - cbn [ret logged result fst snd]. now rewrite app_nil_r.
Qed.

(** ** Failures of the source list *)

(** C4, as stated, fails for transport errors: a timeout of the source-list
    request is not turned into the 404 error, it leaves the handler as it
    is. *)
Lemma source_list_timeout_counterexample :
  local_mode unreachable_world = false /\
  (forall headers, source_list_get unreachable_world
                     "https://raw.example/configs.txt" headers 6
                   = inl ConnectTimeout) /\
  is_TransportError ConnectTimeout = true /\
  result (fetch_links unreachable_world) = inl (Unhandled ConnectTimeout) /\
  result (fetch_links unreachable_world) <> inl config_not_found /\
  result (main unreachable_world "abc") = inl (Unhandled ConnectTimeout).
Proof.
  split; [reflexivity|]. split; [reflexivity|]. split; [reflexivity|].
  split; [reflexivity|]. split; [discriminate | reflexivity].
Qed.

Lemma main_fetch_links_raises (w : World) (sub_id : string) (e : raised) :
  result (fetch_links w) = inl e -> result (main w sub_id) = inl e.
Proof. intros H. now rewrite main_result, H. Qed.

(** C4 (amended). In remote mode, when the request that [fetch_links]
    makes for the source list (to [CONFIG_URL], with the headers its token
    gives) is answered with a status outside 2xx, [fetch_links] raises the
    [HTTPException] with status 404, and so does the handler.  In local
    mode, when reading the file fails, the failure leaves [fetch_links] and
    the handler as an exception that nothing handles. *)
Theorem source_list_unavailable (w : World) :
  (forall (url : string) (response : httpx_Response),
      local_mode w = false ->
      environ w "CONFIG_URL" = Some url ->
      source_list_get w url (github_headers (environ w "GITHUB_TOKEN")) 6
      = inr response ->
      (http_status response < 200 \/ 299 < http_status response)%Z ->
      result (fetch_links w) = inl config_not_found /\
      forall sub_id, result (main w sub_id) = inl config_not_found) /\
  (forall e : exception,
      local_mode w = true ->
      configs_txt w = inl e ->
      is_read_error e = true ->
      result (fetch_links w) = inl (Unhandled e) /\
      forall sub_id, result (main w sub_id) = inl (Unhandled e)).
Proof.
  split.
  - intros url response Hmode Hurl Hget Hstatus.
    assert (F : result (fetch_links w) = inl config_not_found).
    { assert (S : raise_for_status response = inl HTTPStatusError).
      { unfold raise_for_status.
        destruct (Z.leb_spec 200 (http_status response));
          destruct (Z.leb_spec (http_status response) 299);
          try reflexivity; lia. }
      rewrite fetch_links_source_lines. unfold source_lines.
      rewrite Hmode, Hurl, Hget. cbn [and_then]. rewrite S. reflexivity. }
    split; [exact F|]. intros sub_id. now apply main_fetch_links_raises.
  - intros e Hmode Hfile He.
    assert (F : result (fetch_links w) = inl (Unhandled e)).
    { rewrite fetch_links_source_lines. unfold source_lines.
      rewrite Hmode, Hfile.
      destruct e; try discriminate He; reflexivity. }
    split; [exact F|]. intros sub_id. now apply main_fetch_links_raises.
Qed.

(** The server of [wrong_token_world] answers 404 to the token that is sent
    and 200 to a request without it; the file of [no_file_world] is not
    there. *)
Lemma source_list_unavailable_witness :
  source_list_get wrong_token_world "https://raw.example/configs.txt" [] 6
  = inr {| http_status := 200; text := "https://sub.example/" |} /\
  (result (fetch_links wrong_token_world) = inl config_not_found /\
   forall sub_id, result (main wrong_token_world sub_id) = inl config_not_found) /\
  (result (fetch_links no_file_world) = inl (Unhandled FileNotFoundError) /\
   forall sub_id, result (main no_file_world sub_id) = inl (Unhandled FileNotFoundError)).
Proof.
  split; [reflexivity|]. split.
  - apply (proj1 (source_list_unavailable wrong_token_world)
             "https://raw.example/configs.txt"
             {| http_status := 404; text := "Not Found" |});
      [reflexivity | reflexivity | reflexivity | right; reflexivity].
  - apply (proj2 (source_list_unavailable no_file_world) FileNotFoundError);
      reflexivity.
Defined.

(** ** Isolation of a failed fetch *)

Section Completion_order.

Context {A : Type}.

Lemma first_raised_raising (ts : list (task A)) :
  first_raised (raising ts) = first_raised ts.
Proof.
  induction ts as [|t ts IH]; [reflexivity|].
  unfold raising in *. cbn [filter first_raised]. unfold raisesb at 1.
  destruct (result (run t)) as [e|a] eqn:E; [|exact IH].
  cbn [first_raised]. now rewrite E.
Qed.

Lemma insert_by_time_first (t : task A) (l : list (task A)) :
  Forall (earlier t) l -> insert_by_time t l = t :: l.
Proof.
  destruct l as [|u l]; [reflexivity|].
  inversion 1 as [|? ? Hu _]; subst. cbn [insert_by_time].
  unfold earlier in Hu. apply Nat.leb_le in Hu. now rewrite Hu.
Qed.

Lemma insert_by_time_sorted (t : task A) (l : list (task A)) :
  StronglySorted earlier l -> StronglySorted earlier (insert_by_time t l).
Proof.
  induction 1 as [|u l Hs IH Hu]; cbn [insert_by_time].
  - repeat constructor.
  - destruct (Nat.leb_spec (done_at t) (done_at u)) as [Hle|Hlt].
    + constructor; [now constructor|].
      constructor; [exact Hle|].
      revert Hu. apply Forall_impl. unfold earlier. intros; lia.
    + constructor; [exact IH|].
      rewrite Forall_forall in *. intros x Hx.
      apply insert_by_time_In in Hx. destruct Hx as [->|Hx].
      * unfold earlier; lia.
      * now apply Hu.
Qed.

Lemma by_completion_sorted (ts : list (task A)) :
  StronglySorted earlier (by_completion ts).
Proof.
  induction ts as [|t ts IH]; [constructor|].
  now apply insert_by_time_sorted.
Qed.

Lemma raising_insert_returning (t : task A) (l : list (task A)) :
  raisesb t = false -> raising (insert_by_time t l) = raising l.
Proof.
  intros Ht. induction l as [|u l IH]; cbn [insert_by_time].
  - unfold raising. cbn [filter]. now rewrite Ht.
  - destruct (done_at t <=? done_at u)%nat.
    + unfold raising. cbn [filter]. now rewrite Ht.
    + unfold raising in *. cbn [filter]. now rewrite IH.
Qed.

Lemma raising_insert_raising (t : task A) (l : list (task A)) :
  StronglySorted earlier l -> raisesb t = true ->
  raising (insert_by_time t l) = insert_by_time t (raising l).
Proof.
  intros Hs Ht. induction Hs as [|u l Hs IH Hu]; cbn [insert_by_time].
  - unfold raising. cbn [filter]. now rewrite Ht.
  - destruct (Nat.leb_spec (done_at t) (done_at u)) as [Hle|Hlt].
    + assert (F : Forall (earlier t) (u :: l)).
      { constructor; [exact Hle|]. revert Hu. apply Forall_impl.
        unfold earlier. intros; lia. }
      assert (F' : Forall (earlier t) (raising (u :: l)))
        by (apply (incl_Forall (l1 := u :: l)); [apply incl_filter | exact F]).
      rewrite (insert_by_time_first t _ F').
      unfold raising. cbn [filter]. now rewrite Ht.
    + unfold raising in *. cbn [filter]. rewrite IH.
      destruct (raisesb u); [|reflexivity].
      cbn [insert_by_time].
      destruct (Nat.leb_spec (done_at t) (done_at u)); [lia | reflexivity].
Qed.

(** Ordering by completion and keeping the raising tasks commute. *)
Lemma raising_by_completion (ts : list (task A)) :
  raising (by_completion ts) = by_completion (raising ts).
Proof.
  induction ts as [|t ts IH]; [reflexivity|].
  cbn [by_completion fold_right]. fold (by_completion ts).
  destruct (raisesb t) eqn:Ht.
  - rewrite raising_insert_raising by (auto using by_completion_sorted).
    rewrite IH. unfold raising. cbn [filter]. now rewrite Ht.
  - rewrite raising_insert_returning by exact Ht.
    rewrite IH. unfold raising. cbn [filter]. now rewrite Ht.
Qed.

(** What [gather] raises depends on the raising tasks only. *)
Lemma first_raised_by_completion (ts : list (task A)) :
  first_raised (by_completion ts) = first_raised (by_completion (raising ts)).
Proof.
  now rewrite <- first_raised_raising, raising_by_completion.
Qed.

Lemma raising_remove (l1 l2 : list (task A)) (t : task A) :
  raisesb t = false -> raising (l1 ++ t :: l2) = raising (l1 ++ l2).
Proof.
  intros Ht. unfold raising. rewrite !filter_app. cbn [filter]. now rewrite Ht.
Qed.

End Completion_order.

Lemma TransportError_HTTPError (e : exception) :
  is_TransportError e = true -> is_HTTPError e = true.
Proof. destruct e; simpl; congruence. Qed.

Lemma raise_for_status_fails (sub : httpx_Response) :
  (http_status sub < 200 \/ 299 < http_status sub)%Z ->
  raise_for_status sub = inl HTTPStatusError.
Proof.
  intros H. unfold raise_for_status.
  destruct (Z.leb_spec 200 (http_status sub));
    destruct (Z.leb_spec (http_status sub) 299); try reflexivity; lia.
Qed.

(** A failed request makes [fetch_subscription] log one warning, after the
    record of httpx when there was an answer, and return [None]. *)
Lemma fetch_subscription_fails (client_get : http_get) (sub_link sub_id : string) :
  fetch_fails (client_get (sub_link ++ sub_id)%string 3) ->
  exists e,
    run (fetch_subscription client_get sub_link sub_id)
    = (request_log (sub_link ++ sub_id)%string
                   (outcome (client_get (sub_link ++ sub_id)%string 3))
       ++ [Log WARNING
               ("Can't get subscription url from " ++ sub_link ++ sub_id ++ ": ")%string
               (Some e)],
       inr None).
Proof.
  unfold fetch_fails, fetch_subscription. cbn [run].
  destruct (outcome (client_get (sub_link ++ sub_id)%string 3)) as [e|sub];
    intros H; cbn [and_then].
  - exists e. now rewrite (TransportError_HTTPError e H).
  - exists HTTPStatusError. now rewrite (raise_for_status_fails sub H).
Qed.

Lemma enumerate_from_app {A} (k : nat) (l1 l2 : list A) :
  enumerate_from k (l1 ++ l2)
  = enumerate_from k l1 ++ enumerate_from (k + List.length l1) l2.
Proof.
  revert k. induction l1 as [|a l1 IH]; intros k; cbn.
  - now rewrite Nat.add_0_r.
  - now rewrite IH, Nat.add_succ_r.
Qed.

Lemma enumerate_from_bounds {A} (k : nat) (l : list A) (i : nat) (a : A) :
  In (i, a) (enumerate_from k l) -> k <= i < k + List.length l.
Proof.
  revert k. induction l as [|b l IH]; intros k; cbn; [contradiction|].
  intros [[= <- <-]|H]; [lia|]. apply IH in H. lia.
Qed.

Lemma subscription_tasks_from_skip (client : nat -> http_get) (n k : nat)
      (l : list string) (sub_id : string) :
  n <= k ->
  map (fun '(i, u) => fetch_subscription (skip n client i) u sub_id)
      (enumerate_from k l)
  = map (fun '(i, u) => fetch_subscription (client i) u sub_id)
        (enumerate_from (S k) l).
Proof.
  revert k. induction l as [|a l IH]; intros k Hk; [reflexivity|].
  cbn [enumerate_from map]. rewrite IH by lia. f_equal.
  unfold skip. destruct (Nat.ltb_spec k n); [lia | reflexivity].
Qed.

(** The tasks of the fan-out with and without one endpoint. *)
Lemma subscription_tasks_remove (client : nat -> http_get)
      (before after : list string) (sub_link sub_id : string) :
  exists l1 l2,
    subscription_tasks client (before ++ sub_link :: after) sub_id
    = l1 ++ fetch_subscription (client (List.length before)) sub_link sub_id :: l2 /\
    subscription_tasks (skip (List.length before) client) (before ++ after) sub_id
    = l1 ++ l2.
Proof.
  unfold subscription_tasks. rewrite !enumerate_from_app, !map_app.
  cbn [enumerate_from map Nat.add].
  exists (map (fun '(k, u) => fetch_subscription (client k) u sub_id)
              (enumerate_from 0 before)),
         (map (fun '(k, u) => fetch_subscription (client k) u sub_id)
              (enumerate_from (S (List.length before)) after)).
  split; [reflexivity|]. f_equal.
  - apply map_ext_in. intros [i u] Hin. apply enumerate_from_bounds in Hin.
    unfold skip. destruct (Nat.ltb_spec i (List.length before)); [reflexivity | lia].
  - now apply subscription_tasks_from_skip.
Qed.

Lemma returned_app {A} (l1 l2 : list (task A)) :
  returned (l1 ++ l2) = returned l1 ++ returned l2.
Proof. unfold returned. apply flat_map_app. Qed.

Lemma not_None_app {A} (l1 l2 : list (option A)) :
  not_None (l1 ++ l2) = not_None l1 ++ not_None l2.
Proof. unfold not_None. apply flat_map_app. Qed.

(** A task that returns [None] does not change what [gather] raises, nor
    the payloads it collects. *)
Lemma gather_remove {A} (l1 l2 : list (task (option A))) (t : task (option A)) :
  result (run t) = inr None ->
  match result (gather (l1 ++ t :: l2)), result (gather (l1 ++ l2)) with
  | inl e, inl e' => e = e'
  | inr tmp, inr tmp' => not_None tmp = not_None tmp'
  | _, _ => False
  end.
Proof.
  intros Ht. rewrite !gather_result.
  assert (Hr : raisesb t = false) by (unfold raisesb; now rewrite Ht).
  rewrite (first_raised_by_completion (l1 ++ t :: l2)).
  rewrite (first_raised_by_completion (l1 ++ l2)).
  rewrite (raising_remove l1 l2 t Hr).
  destruct (first_raised _); [reflexivity|].
  change (t :: l2) with ([t] ++ l2).
  rewrite !returned_app, !not_None_app. f_equal.
  unfold returned. cbn [flat_map]. unfold result in Ht. now rewrite Ht.
Qed.

Lemma merge_all_remove (client : nat -> http_get)
      (before after : list string) (sub_link : string)
      (vless_links : list string) (sub_id : string) :
  result (run (fetch_subscription (client (List.length before)) sub_link sub_id))
  = inr None ->
  result (merge_all client (before ++ sub_link :: after) vless_links sub_id)
  = result (merge_all (skip (List.length before) client) (before ++ after)
                      vless_links sub_id).
Proof.
  intros Ht. rewrite !merge_all_result.
  destruct (subscription_tasks_remove client before after sub_link sub_id)
    as (l1 & l2 & -> & ->).
  pose proof (gather_remove l1 l2 _ Ht) as G.
  destruct (result (gather (l1 ++ _ :: l2))) as [e|tmp];
    destruct (result (gather (l1 ++ l2))) as [e'|tmp']; try contradiction.
  - now subst.
  - now rewrite G.
Qed.

Lemma build_optional_headers_ext (w w' : World) :
  (forall name, environ w' name = environ w name) ->
  build_optional_headers w' = build_optional_headers w.
Proof.
  intros H. unfold build_optional_headers, _get_env. now rewrite !H.
Qed.

Lemma respond_ext (w w' : World) (merged_bytes : list byte) :
  (forall name, environ w' name = environ w name) ->
  respond w' merged_bytes = respond w merged_bytes.
Proof.
  intros H. unfold respond. now rewrite (build_optional_headers_ext w w' H).
Qed.

(** C5. A fetch that ends in a transport error or in a status outside 2xx
    returns the absent outcome (and logs one warning, after the record of
    httpx when the request was answered).  The aggregator then
    gives what it gives without that endpoint, and so does the request
    handler: payload, error and response are the same. *)
Theorem fetch_failure_isolated (client : nat -> http_get)
        (before after : list string) (sub_link : string)
        (vless_links : list string) (sub_id : string)
        (Hfails : fetch_fails (client (List.length before)
                                      (sub_link ++ sub_id)%string 3)) :
  let t := fetch_subscription (client (List.length before)) sub_link sub_id in
  result (run t) = inr None /\
  (exists e, logged (run t)
             = request_log (sub_link ++ sub_id)%string
                 (outcome (client (List.length before) (sub_link ++ sub_id)%string 3))
               ++ [Log WARNING
                       ("Can't get subscription url from " ++ sub_link ++ sub_id ++ ": ")%string
                       (Some e)]) /\
  result (merge_all client (before ++ sub_link :: after) vless_links sub_id)
  = result (merge_all (skip (List.length before) client) (before ++ after)
                      vless_links sub_id) /\
  (forall w w' : World,
      subscription_get w = client ->
      subscription_get w' = skip (List.length before) client ->
      (forall name, environ w' name = environ w name) ->
      result (fetch_links w) = inr (before ++ sub_link :: after, vless_links) ->
      result (fetch_links w') = inr (before ++ after, vless_links) ->
      result (main w sub_id) = result (main w' sub_id)).
Proof.
  intros t.
  destruct (fetch_subscription_fails _ sub_link sub_id Hfails) as (e & He).
  assert (Ht : result (run t) = inr None) by (unfold t; now rewrite He).
  pose proof (merge_all_remove client before after sub_link vless_links sub_id Ht)
    as Hm.
  split; [exact Ht|]. split; [exists e; unfold t; now rewrite He|].
  split; [exact Hm|].
  intros w w' Hc Hc' Henv Hl Hl'.
  rewrite !main_result, Hl, Hl', Hc, Hc', Hm.
  replace (is_empty (before ++ sub_link :: after)) with false
    by (now destruct before).
  cbn [andb].
  destruct (is_empty (before ++ after) && is_empty vless_links) eqn:E.
  2:{ clear Hm.
      destruct (result (merge_all (skip (List.length before) client)
                                  (before ++ after) vless_links sub_id))
        as [x|m]; [reflexivity|].
      symmetry. now apply respond_ext. }
  apply andb_true_iff in E. destruct E as [E1 E2].
  destruct (before ++ after); [|discriminate].
  destruct vless_links; [|discriminate].
  rewrite merge_all_result. reflexivity.
Qed.

Lemma fetch_failure_isolated_witness :
  fetch_fails (subscription_get flaky_world 0 "https://down.example/abc" 3) /\
  result (merge_all (subscription_get flaky_world)
                    ["https://down.example/"; "https://sub.example/"]
                    [scenario_inline] "abc")
  = result (merge_all (subscription_get steady_world)
                      ["https://sub.example/"] [scenario_inline] "abc") /\
  result (main flaky_world "abc") = result (main steady_world "abc") /\
  result (main steady_world "abc")
  = inr {| status_code := 200;
           content := b64encode (encode ("A" ++ scenario_inline));
           media_type := "text/plain";
           headers := [] |}.
Proof.
  assert (F : fetch_fails (subscription_get flaky_world 0 "https://down.example/abc" 3))
    by reflexivity.
  destruct (fetch_failure_isolated (subscription_get flaky_world)
              [] ["https://sub.example/"] "https://down.example/"
              [scenario_inline] "abc" F) as (_ & _ & Hm & Hw).
  split; [exact F|]. split; [exact Hm|]. split; [|reflexivity].
  exact (Hw flaky_world steady_world eq_refl eq_refl (fun _ => eq_refl)
            eq_refl eq_refl).
Defined.

(** ** Nothing to return *)

Lemma fetch_links_raises (w : World) (e : raised) :
  result (fetch_links w) = inl e ->
  e = config_not_found \/ exists x, e = Unhandled x.
Proof.
  rewrite fetch_links_source_lines.
  destruct (source_lines w) as [x|lines]; [|discriminate].
  destruct (is_HTTPStatusError x).
  - intros [= <-]. now left.
  - destruct (is_FileNotFoundError x); intros [= <-]; right; now exists x.
Qed.

Lemma payloads_nil (rs : list (raised + option (list byte))) :
  Forall (fun r => exists o, r = inr o) rs ->
  payloads rs = [] -> Forall (fun r => r = inr None) rs.
Proof.
  induction 1 as [|r rs [o ->] _ IH]; [constructor|].
  unfold payloads in *. cbn [flat_map].
  destruct o as [b|]; [discriminate|]. cbn [app]. intros H. constructor; auto.
Qed.

Lemma payloads_absent (rs : list (raised + option (list byte))) :
  Forall (fun r => r = inr None) rs ->
  payloads rs = [] /\ Forall (fun r => exists o, r = inr o) rs.
Proof.
  induction 1 as [|r rs -> _ [IH1 IH2]]; [split; [reflexivity | constructor]|].
  split; [exact IH1|]. constructor; [now exists None | exact IH2].
Qed.

Lemma is_empty_true {A} (l : list A) : is_empty l = true <-> l = [].
Proof. destruct l; simpl; split; congruence. Qed.

(** When every fetch gives the absent outcome, the aggregator raises the
    error if there is no inline entry and returns the inline block
    otherwise. *)
Lemma merge_all_absent (client : nat -> http_get)
      (sub_links vless_links : list string) (sub_id : string) :
  Forall (fun r => r = inr None) (fetch_results client sub_links sub_id) ->
  result (merge_all client sub_links vless_links sub_id)
  = if is_empty vless_links then inl nothing_to_return
    else inr (join newline (map encode vless_links)).
Proof.
  intros H. apply payloads_absent in H. destruct H as [Hp Hr].
  rewrite (merge_all_returns client sub_links vless_links sub_id Hr), Hp.
  reflexivity.
Qed.

(** C6 fails on the code, by the defect of C3.  The only endpoint of
    [only_bad_world] answers 200 with a text that does not decode and there
    is no inline entry: every fetch has failed and there is nothing to
    serve.  The handler does not raise the [HTTPException] with status 500:
    the decode failure, which [fetch_subscription] does not catch, leaves
    it unhandled. *)
Theorem nothing_to_return_missed :
  result (fetch_links only_bad_world) = inr (["https://bad.example/"], []) /\
  outcome (subscription_get only_bad_world 0 "https://bad.example/abc" 3)
  = inr {| http_status := 200; text := "QQ" |} /\
  b64decode "QQ" = inl binascii_Error /\
  fetch_results (subscription_get only_bad_world) ["https://bad.example/"] "abc"
  = [inl (Unhandled binascii_Error)] /\
  result (merge_all (subscription_get only_bad_world) ["https://bad.example/"] [] "abc")
  = inl (Unhandled binascii_Error) /\
  result (main only_bad_world "abc") = inl (Unhandled binascii_Error) /\
  result (main only_bad_world "abc") <> inl nothing_to_return.
Proof. repeat split; try reflexivity. discriminate. Qed.

(** What the code does instead.  The handler raises the [HTTPException]
    with status 500 and the detail [There is nothing to return] exactly
    when the source list was read and either it has no endpoint and no
    inline entry, or it has no inline entry and every fetch returned
    [None]; no other [HTTPException] with status 500 leaves the handler. *)
Theorem nothing_to_return_iff (w : World) (sub_id : string) :
  nothing_to_return = HTTPException 500 ("There is " ++ "nothing to return") /\
  (result (main w sub_id) = inl nothing_to_return <->
   exists sub_links vless_links : list string,
     result (fetch_links w) = inr (sub_links, vless_links) /\
     ((sub_links = [] /\ vless_links = []) \/
      (vless_links = [] /\
       Forall (fun r => r = inr None)
              (fetch_results (subscription_get w) sub_links sub_id)))) /\
  (forall detail : string,
      result (main w sub_id) = inl (HTTPException 500 detail) ->
      result (main w sub_id) = inl nothing_to_return).
Proof.
  split; [reflexivity|].
  assert (K : forall status detail,
             result (main w sub_id) = inl (HTTPException status detail) ->
             status = 500%Z ->
             HTTPException status detail = nothing_to_return /\
             exists sub_links vless_links : list string,
               result (fetch_links w) = inr (sub_links, vless_links) /\
               ((sub_links = [] /\ vless_links = []) \/
                (vless_links = [] /\
                 Forall (fun r => r = inr None)
                        (fetch_results (subscription_get w) sub_links sub_id)))).
  { intros status detail H Hs. rewrite main_result in H.
    destruct (result (fetch_links w)) as [e|[sub_links vless_links]] eqn:L.
    - apply fetch_links_raises in L. destruct L as [->|[x ->]].
      + injection H as <- _. discriminate Hs.
      + discriminate H.
    - destruct (is_empty sub_links && is_empty vless_links) eqn:E.
      + split; [now injection H as <- <-|].
        apply andb_true_iff in E. destruct E as [E1 E2].
        apply is_empty_true in E1, E2.
        exists sub_links, vless_links. split; [reflexivity | now left].
      + destruct (result (merge_all _ _ _ _)) as [e|merged_bytes] eqn:M;
          [|rewrite respond_cases in H; destruct (sendable w); discriminate].
        injection H as ->.
        assert (F : Forall (fun r => exists o, r = inr o)
                           (fetch_results (subscription_get w) sub_links sub_id)).
        { apply (merge_all_inv _ sub_links vless_links sub_id).
          right. now exists status, detail. }
        rewrite (merge_all_returns _ sub_links vless_links sub_id F) in M.
        destruct (is_empty (payloads _) && is_empty vless_links) eqn:E';
          [|discriminate].
        split; [now injection M as <- <-|].
        apply andb_true_iff in E'. destruct E' as [E1 E2].
        apply is_empty_true in E1, E2.
        exists sub_links, vless_links. split; [reflexivity|]. right.
        split; [exact E2 | now apply payloads_nil]. }
  split; [split|].
  - intros H. now destruct (K _ _ H eq_refl).
  - intros (sub_links & vless_links & L & [[-> ->] | [-> F]]).
    + now rewrite main_result, L.
    + rewrite main_result, L, (merge_all_absent _ _ _ _ F).
      now destruct (is_empty sub_links && is_empty []).
  - intros detail H. destruct (K _ _ H eq_refl) as [E _]. now rewrite H, E.
Qed.

(** C7, as stated, fails where a header cannot be sent.  In
    [cyrillic_world] the only fetch fails with the status 503 and there are
    two inline entries, but [SUB_NAME] is a Cyrillic letter, which latin-1
    does not have: the constructor of the response raises
    [UnicodeEncodeError] and the handler answers nothing. *)
Lemma inline_only_counterexample :
  result (fetch_links cyrillic_world)
  = inr (["https://down.example/"], ["vless://a"; "vless://b"]) /\
  fetch_fails (subscription_get cyrillic_world 0 "https://down.example/abc" 3) /\
  fetch_results (subscription_get cyrillic_world) ["https://down.example/"] "abc"
  = [inr None] /\
  build_optional_headers cyrillic_world = [("profile-title", cyrillic_pe)] /\
  latin1 cyrillic_pe = false /\
  result (main cyrillic_world "abc") = inl (Unhandled UnicodeEncodeError) /\
  ~ (exists r : Response, result (main cyrillic_world "abc") = inr r).
Proof.
  split; [reflexivity|]. split; [right; reflexivity|].
  split; [reflexivity|]. split; [reflexivity|]. split; [reflexivity|].
  split; [reflexivity|]. intros [r H]. discriminate H.
Qed.

(** The other way in which a fetch fails is the defect of C3: a 2xx answer
    that does not decode ends the request, with inline entries as without
    them. *)
Example inline_with_undecodable_fetch :
  result (fetch_links bad_inline_world)
  = inr (["https://bad.example/"], ["vless://a"; "vless://b"]) /\
  result (main bad_inline_world "abc") = inl (Unhandled binascii_Error).
Proof. split; reflexivity. Qed.

(** C7 (amended). When every fetch returns [None], as it does for a
    transport error, for any other [httpx.HTTPError] and for a status
    outside 2xx, when there are inline entries and when the optional
    headers can be encoded as latin-1, the handler answers with status 200
    and a body that decodes, as base64, to the inline entries joined by one
    newline byte. *)
Theorem inline_only_response (w : World) (sub_id : string)
        (sub_links vless_links : list string)
        (Hlinks : result (fetch_links w) = inr (sub_links, vless_links))
        (Habsent : Forall (fun r => r = inr None)
                          (fetch_results (subscription_get w) sub_links sub_id))
        (Hinline : vless_links <> [])
        (Hsend : sendable w = true) :
  exists r : Response,
    result (main w sub_id) = inr r /\
    status_code r = 200%Z /\
    b64decode_bytes (content r) = inr (join newline (map encode vless_links)).
Proof.
  rewrite main_result, Hlinks, (merge_all_absent _ _ _ _ Habsent).
  destruct vless_links as [|v vs]; [congruence|].
  rewrite andb_false_r. cbn [is_empty].
  rewrite respond_cases, Hsend.
  eexists. split; [reflexivity|]. split; [reflexivity|].
  cbn [content response_for]. apply b64decode_b64encode.
Qed.

Lemma nothing_to_return_iff_witness :
  result (fetch_links dead_world) = inr (["https://down.example/"], []) /\
  fetch_results (subscription_get dead_world) ["https://down.example/"] "abc"
  = [inr None] /\
  result (main dead_world "abc")
  = inl (HTTPException 500 "There is nothing to return").
Proof.
  split; [reflexivity|]. split; [reflexivity|].
  apply (proj2 (proj1 (proj2 (nothing_to_return_iff dead_world "abc")))).
  exists ["https://down.example/"], []. split; [reflexivity|].
  right. split; [reflexivity|]. repeat constructor.
Defined.

Lemma inline_only_response_witness :
  result (fetch_links inline_world)
  = inr (["https://down.example/"], ["vless://a"; "vless://b"]) /\
  ["vless://a"; "vless://b"] <> [] /\
  exists r : Response,
    result (main inline_world "abc") = inr r /\
    status_code r = 200%Z /\
    b64decode_bytes (content r) = inr (encode ("vless://a" ++ LF ++ "vless://b")).
Proof.
  split; [reflexivity|]. split; [discriminate|].
  apply (inline_only_response inline_world "abc"
           ["https://down.example/"] ["vless://a"; "vless://b"]).
  - reflexivity.
  - repeat constructor.
  - discriminate.
  - reflexivity.
Defined.

(** * Further properties of the program *)

(** ** Configuration values and headers *)

Lemma strip_trimmed (s : string) : trimmed (strip s).
Proof.
  split; [apply strip_strip|].
  unfold strip. rewrite list_ascii_of_string_of_list_ascii.
  split; [apply rstrip_keeps_clean_left, lstrip_clean | apply rstrip_clean].
Qed.

(** [_get_env] gives nothing exactly for a variable that is unset, empty or
    made of whitespace; otherwise it gives the value of the variable without
    the whitespace at its ends, which is never empty. *)
Theorem get_env_trimmed (w : World) (name : string) :
  (_get_env w name = None <-> blank (environ w name)) /\
  (forall v : string,
      _get_env w name = Some v ->
      (exists raw, environ w name = Some raw /\ v = strip raw) /\
      v <> "" /\ ~ only_whitespace v /\ trimmed v).
Proof.
  split; [apply _get_env_None|].
  intros v H. apply _get_env_Some in H. destruct H as (ne & raw & Hraw & ->).
  split; [now exists raw|]. split; [exact ne|].
  split; [|apply strip_trimmed].
  apply not_only_whitespace. now rewrite strip_strip.
Qed.

Lemma get_env_trimmed_witness :
  _get_env demo_world "SUB_NAME" = Some "Demo" /\
  ((exists raw, environ demo_world "SUB_NAME" = Some raw /\ "Demo" = strip raw) /\
   "Demo" <> "" /\ ~ only_whitespace "Demo" /\ trimmed "Demo").
Proof.
  split; [reflexivity|].
  exact (proj2 (get_env_trimmed demo_world "SUB_NAME") "Demo" eq_refl).
Defined.

Section Optional_items.

Context {K V : Type}.

Variable f : K -> option V.

Lemma items_keys (l : list K) :
  map fst (optional_items f l) = filter (fun k => is_some (f k)) l.
Proof.
  induction l as [|k l IH]; [reflexivity|].
  unfold optional_items in *. cbn [flat_map filter].
  destruct (f k); cbn [is_some app map fst]; now rewrite IH.
Qed.

Lemma items_values (l : list K) :
  Forall (fun kv => f (fst kv) = Some (snd kv)) (optional_items f l).
Proof.
  induction l as [|k l IH]; [constructor|].
  unfold optional_items in *. cbn [flat_map].
  destruct (f k) eqn:E; [|exact IH]. constructor; [exact E | exact IH].
Qed.

End Optional_items.

Lemma header_value_Some (w : World) (key v : string) :
  header_value w key = Some v -> exists name, _get_env w name = Some v.
Proof.
  unfold header_value, or_else.
  repeat match goal with
         | |- context [if (?k =? key)%string then _ else _] =>
             destruct (k =? key)%string
         end; try discriminate; eauto.
  destruct (truthy (_get_env w "PROFILE_TITLE")); eauto.
Qed.

(** The dict of optional headers, one header variable after the other. *)
Lemma build_optional_headers_items (w : World) :
  build_optional_headers w
  = flat_map (fun k => match header_value w k with
                       | Some v => [(k, v)]
                       | None => []
                       end) (map fst header_variables).
Proof.
  unfold build_optional_headers.
  cbn [header_variables map fst flat_map snd].
  change (header_value w "profile-title")
    with (or_else (_get_env w "PROFILE_TITLE") (_get_env w "SUB_NAME")).
  change (header_value w "support-url") with (_get_env w "SUPPORT_URL").
  change (header_value w "profile-web-page-url")
    with (_get_env w "PROFILE_WEB_PAGE_URL").
  change (header_value w "announce") with (_get_env w "ANNOUNCE").
  change (header_value w "profile-update-interval")
    with (_get_env w "PROFILE_UPDATE_INTERVAL").
  change (header_value w "providerid") with (_get_env w "PROVIDER_ID").
  unfold or_else.
  env_case w "PROFILE_TITLE"; env_case w "SUB_NAME";
    env_case w "SUPPORT_URL"; env_case w "PROFILE_WEB_PAGE_URL";
    env_case w "ANNOUNCE"; env_case w "PROFILE_UPDATE_INTERVAL";
    env_case w "PROVIDER_ID";
    repeat first [ progress cbn [truthy negb app]
                 | match goal with
                   | H : (_ =? "")%string = false |- _ => rewrite H
                   end ];
    reflexivity.
Qed.

(** The optional headers come in the order of the source, each name at most
    once and only names of the six headers; every value is the value of a
    configuration variable without the whitespace at its ends. *)
Theorem optional_headers_shape (w : World) :
  map fst (build_optional_headers w)
  = filter (fun key => is_some (header_value w key)) (map fst header_variables) /\
  NoDup (map fst (build_optional_headers w)) /\
  List.length (build_optional_headers w) <= 6 /\
  Forall (fun kv : string * string =>
            (exists name raw, environ w name = Some raw /\ snd kv = strip raw) /\
            trimmed (snd kv))
         (build_optional_headers w).
Proof.
  rewrite build_optional_headers_items.
  pose proof (items_keys (header_value w) (map fst header_variables)) as Hk.
  unfold optional_items in Hk.
  split; [exact Hk|]. split; [|split].
  - rewrite Hk. apply NoDup_filter.
    repeat constructor; simpl; intuition discriminate.
  - rewrite <- (length_map fst), Hk.
    etransitivity; [apply filter_length_le|]. simpl. lia.
  - pose proof (items_values (header_value w) (map fst header_variables)) as Hv.
    unfold optional_items in Hv. revert Hv. apply Forall_impl. intros [k v] Hv.
    cbn [fst snd] in *. apply header_value_Some in Hv. destruct Hv as [name Hn].
    apply _get_env_Some in Hn. destruct Hn as (_ & raw & Hraw & ->).
    split; [now exists name, raw | apply strip_trimmed].
Qed.

(** ** Reading the source list *)

Lemma fetch_links_returns (w : World) (sub_links vless_links : list string) :
  result (fetch_links w) = inr (sub_links, vless_links) ->
  exists lines, source_lines w = inr lines /\
                sub_links = sub_links_of lines /\
                vless_links = vless_links_of lines /\
                logged (fetch_links w) = source_request_log w.
Proof.
  rewrite fetch_links_source_lines.
  destruct (source_lines w) as [e|lines].
  - destruct (is_HTTPStatusError e); [discriminate|].
    destruct (is_FileNotFoundError e); discriminate.
  - intros [= <- <-]. now exists lines.
Qed.

(** The record of the request is not one of the program's own, and there is
    at most one. *)
Lemma source_request_log_foreign (w : World) :
  filter own_record (source_request_log w) = [] /\
  (List.length (source_request_log w) <= 1)%nat.
Proof.
  unfold source_request_log.
  destruct (local_mode w); [split; [reflexivity | cbn; lia]|].
  destruct (environ w "CONFIG_URL") as [url|]; [|split; [reflexivity | cbn; lia]].
  destruct (source_list_get w url _ 6); split; try reflexivity; cbn; lia.
Qed.

(** A source list that was read in remote mode came with a 2xx answer, which
    httpx has logged. *)
Lemma source_request_log_returns (w : World) (lines : list string) :
  source_lines w = inr lines ->
  local_mode w = false ->
  exists url response,
    environ w "CONFIG_URL" = Some url /\
    source_list_get w url (github_headers (environ w "GITHUB_TOKEN")) 6
    = inr response /\
    raise_for_status response = inr tt /\
    source_request_log w = [HTTP_Request url response].
Proof.
  unfold source_lines, source_request_log. intros H Hmode. rewrite Hmode in *.
  destruct (environ w "CONFIG_URL") as [url|]; [|discriminate].
  destruct (source_list_get w url _ 6) as [e|response] eqn:G; [discriminate|].
  cbn [and_then] in H.
  destruct (raise_for_status response) as [e|[]] eqn:S; [discriminate|].
  exists url, response. split; [reflexivity|]. split; [exact G|].
  split; [exact S | reflexivity].
Qed.

(** Whatever [fetch_links] returns is classified and trimmed: every
    endpoint starts with [http], every inline entry with [vless://], none
    has whitespace at its ends and no text is in both lists.  The program
    itself has logged nothing: in local mode the log is empty, in remote
    mode it holds the record of httpx for the request, which was answered
    with a 2xx status. *)
Theorem fetch_links_invariants (w : World) (sub_links vless_links : list string)
  (Hlinks : result (fetch_links w) = inr (sub_links, vless_links)) :
  Forall (fun t => startswith t "http" = true /\ trimmed t) sub_links /\
  Forall (fun t => startswith t "vless://" = true /\ trimmed t) vless_links /\
  (forall t, In t sub_links -> ~ In t vless_links) /\
  filter own_record (logged (fetch_links w)) = [] /\
  (local_mode w = true -> logged (fetch_links w) = []) /\
  (local_mode w = false ->
   exists url response,
     environ w "CONFIG_URL" = Some url /\
     source_list_get w url (github_headers (environ w "GITHUB_TOKEN")) 6
     = inr response /\
     raise_for_status response = inr tt /\
     logged (fetch_links w) = [HTTP_Request url response]).
Proof.
  apply fetch_links_returns in Hlinks.
  destruct Hlinks as (lines & Hsrc & -> & -> & Hlog).
  assert (L : filter own_record (logged (fetch_links w)) = [] /\
              (local_mode w = true -> logged (fetch_links w) = []) /\
              (local_mode w = false ->
               exists url response,
                 environ w "CONFIG_URL" = Some url /\
                 source_list_get w url (github_headers (environ w "GITHUB_TOKEN")) 6
                 = inr response /\
                 raise_for_status response = inr tt /\
                 logged (fetch_links w) = [HTTP_Request url response])).
  { rewrite Hlog. split; [apply source_request_log_foreign|]. split.
    - intros Hmode. unfold source_request_log. now rewrite Hmode.
    - intros Hmode. now apply (source_request_log_returns w lines). }
  clear Hlog Hsrc.
  assert (T : forall p, Forall (fun t => startswith t p = true /\ trimmed t)
                               (pick p lines)).
  { intros p. unfold pick. induction lines as [|line lines IH]; [constructor|].
    cbn [filter]. destruct (startswith (strip line) p) eqn:E; [|exact IH].
    cbn [map]. constructor; [|exact IH]. split; [exact E | apply strip_trimmed]. }
  split; [apply (T "http")|]. split; [apply (T "vless://")|].
  split; [|exact L].
  intros t Hs Hv.
  pose proof (T "http") as T1. pose proof (T "vless://") as T2.
  rewrite Forall_forall in T1, T2.
  destruct (T1 t Hs) as [H1 _]. destruct (T2 t Hv) as [H2 _].
  apply http_not_vless in H1. congruence.
Qed.

Lemma fetch_links_invariants_witness :
  result (fetch_links remote_world)
  = inr (["https://sub.example/"], ["vless://user@host:443?x=1"]) /\
  Forall (fun t => startswith t "http" = true /\ trimmed t) ["https://sub.example/"] /\
  Forall (fun t => startswith t "vless://" = true /\ trimmed t)
         ["vless://user@host:443?x=1"] /\
  (forall t, In t ["https://sub.example/"] -> ~ In t ["vless://user@host:443?x=1"]) /\
  logged (fetch_links remote_world)
  = [HTTP_Request "https://raw.example/configs.txt"
       {| http_status := 200;
          text := ("https://sub.example/" ++ String "013" LF
                   ++ LF ++ " not a source" ++ LF
                   ++ "vless://user@host:443?x=1")%string |}].
Proof.
  split; [reflexivity|].
  destruct (fetch_links_invariants remote_world _ _
              (eq_refl : result (fetch_links remote_world)
                         = inr (["https://sub.example/"],
                                ["vless://user@host:443?x=1"])))
    as (H1 & H2 & H3 & _).
  split; [exact H1|]. split; [exact H2|]. split; [exact H3 | reflexivity].
Defined.

Lemma startswith_empty (p : string) : p <> "" -> startswith "" p = false.
Proof. destruct p; [congruence | reflexivity]. Qed.

Lemma pick_unrecognised (p : string) (lines : list string) :
  Forall (fun line => startswith (strip line) p = false) lines -> pick p lines = [].
Proof.
  induction 1 as [|line lines H _ IH]; [reflexivity|].
  unfold pick in *. cbn [filter]. now rewrite H.
Qed.

(** Lines that are empty or made of whitespace are unrecognised, and a local
    file with unrecognised lines only (an empty file is one) makes the handler
    log one error and raise the 500 error, whatever the network would say. *)
Theorem unrecognised_lines_only (w : World) (sub_id : string) (lines : list string)
  (Hmode : local_mode w = true)
  (Hfile : configs_txt w = inr lines)
  (Hlines : Forall unrecognised lines) :
  (forall line, only_whitespace line -> unrecognised line) /\
  fetch_links w = ([], inr ([], [])) /\
  main w sub_id
  = ([Log ERROR "No subscriptions or configurations available" None],
     inl nothing_to_return).
Proof.
  assert (F : fetch_links w = ([], inr ([], []))).
  { rewrite fetch_links_source_lines. unfold source_lines, source_request_log.
    rewrite Hmode, Hfile.
    change (sub_links_of lines) with (pick "http" lines).
    change (vless_links_of lines) with (pick "vless://" lines).
    rewrite !pick_unrecognised; [reflexivity| |];
      (revert Hlines; apply Forall_impl; intros line [H1 H2]; assumption). }
  split; [|split; [exact F|]].
  - intros line Hb. apply strip_empty_iff in Hb. unfold unrecognised.
    rewrite Hb. split; reflexivity.
  - unfold main. rewrite F. reflexivity.
Qed.

Lemma unrecognised_lines_only_witness :
  local_mode blank_world = true /\
  Forall unrecognised [LF; ("   " ++ LF)%string; ("# nothing yet" ++ LF)%string] /\
  main blank_world "abc"
  = ([Log ERROR "No subscriptions or configurations available" None],
     inl nothing_to_return).
Proof.
  assert (U : Forall unrecognised
                     [LF; ("   " ++ LF)%string; ("# nothing yet" ++ LF)%string])
    by (repeat constructor).
  split; [reflexivity|]. split; [exact U|].
  exact (proj2 (proj2 (unrecognised_lines_only blank_world "abc" _
                         eq_refl eq_refl U))).
Defined.

(** What [fetch_links] asks of the outside: in local mode the file and
    nothing of the network; in remote mode one request, for [CONFIG_URL],
    with a timeout of 6 and with the two GitHub headers exactly when
    [GITHUB_TOKEN] is set and not empty, and nothing of the file.  Two
    worlds that agree on that give the same lines, result and log. *)
Theorem fetch_links_request (w w' : World)
  (Henv : forall name, environ w' name = environ w name)
  (Hlocal : local_mode w = true -> configs_txt w' = configs_txt w)
  (Hremote : forall url,
      local_mode w = false -> environ w "CONFIG_URL" = Some url ->
      source_list_get w' url (github_headers (environ w "GITHUB_TOKEN")) 6
      = source_list_get w url (github_headers (environ w "GITHUB_TOKEN")) 6) :
  (forall tok, github_headers (Some tok)
               = if (tok =? "")%string then []
                 else [ ("Authorization", ("token " ++ tok)%string);
                        ("Accept", "application/vnd.github.v3.raw") ]) /\
  github_headers None = [] /\
  fetch_links w' = fetch_links w.
Proof.
  split; [|split; [reflexivity|]].
  - intros tok. unfold github_headers, truthy. now destruct (tok =? "")%string.
  - rewrite !fetch_links_source_lines.
    assert (S : source_lines w' = source_lines w).
    { unfold source_lines, local_mode. rewrite !Henv.
      fold (local_mode w). destruct (local_mode w) eqn:M; [now apply Hlocal|].
      destruct (environ w "CONFIG_URL") as [url|] eqn:U; [|reflexivity].
      now rewrite (Hremote url eq_refl eq_refl). }
    assert (R : source_request_log w' = source_request_log w).
    { unfold source_request_log, local_mode. rewrite !Henv.
      fold (local_mode w). destruct (local_mode w) eqn:M; [reflexivity|].
      destruct (environ w "CONFIG_URL") as [url|] eqn:U; [|reflexivity].
      now rewrite (Hremote url eq_refl eq_refl). }
    now rewrite S, R.
Qed.

Lemma fetch_links_request_witness :
  configs_txt remote_world_elsewhere <> configs_txt remote_world /\
  fetch_links remote_world_elsewhere = fetch_links remote_world.
Proof.
  split; [discriminate|].
  apply (fetch_links_request remote_world remote_world_elsewhere).
  - reflexivity.
  - discriminate.
  - reflexivity.
Defined.

(** Without [CONFIG_URL], in remote mode, [fetch_links] makes no request and
    logs nothing: the [TypeError] for the missing URL leaves it, and the
    handler, unhandled. *)
Theorem missing_config_url (w : World) (sub_id : string)
  (Hmode : local_mode w = false)
  (Hurl : environ w "CONFIG_URL" = None) :
  fetch_links w = ([], inl (Unhandled TypeError)) /\
  main w sub_id = ([], inl (Unhandled TypeError)).
Proof.
  assert (F : fetch_links w = ([], inl (Unhandled TypeError))).
  { rewrite fetch_links_source_lines. unfold source_lines, source_request_log.
    now rewrite Hmode, Hurl. }
  split; [exact F|]. unfold main. now rewrite F.
Qed.

Lemma missing_config_url_witness :
  local_mode unconfigured_world = false /\
  environ unconfigured_world "CONFIG_URL" = None /\
  fetch_links unconfigured_world = ([], inl (Unhandled TypeError)) /\
  main unconfigured_world "abc" = ([], inl (Unhandled TypeError)).
Proof.
  split; [reflexivity|]. split; [reflexivity|].
  exact (missing_config_url unconfigured_world "abc" eq_refl eq_refl).
Defined.



(** ** One subscription fetch, in full *)

Lemma raise_for_status_success (sub : httpx_Response) :
  raise_for_status sub = inr tt <-> success (http_status sub).
Proof.
  unfold raise_for_status, success.
  destruct (Z.leb_spec 200 (http_status sub));
    destruct (Z.leb_spec (http_status sub) 299); cbn [andb];
    split; intros E; try discriminate; try reflexivity; lia.
Qed.

Lemma raise_for_status_cases (sub : httpx_Response) :
  (raise_for_status sub = inr tt /\ success (http_status sub)) \/
  (raise_for_status sub = inl HTTPStatusError /\ ~ success (http_status sub)).
Proof.
  unfold raise_for_status, success.
  destruct (Z.leb_spec 200 (http_status sub));
    destruct (Z.leb_spec (http_status sub) 299); cbn [andb];
    [left | right | right | right]; split; try reflexivity; lia.
Qed.

(** The three outcomes of [fetch_subscription], each with the replies that
    lead to it.  It returns a payload exactly for an answer with a 2xx status
    whose text decodes to it; it returns [None] exactly for an exception of
    the [httpx.HTTPError] family or an answer with another status; it raises
    exactly the other exceptions of the request and the decode failures.  It
    is done when the reply arrives. *)
Theorem fetch_subscription_outcomes (client_get : http_get) (sub_link sub_id : string) :
  let r := client_get (sub_link ++ sub_id)%string 3 in
  let t := fetch_subscription client_get sub_link sub_id in
  (forall b : list byte,
      result (run t) = inr (Some b) <->
      exists sub, outcome r = inr sub /\ success (http_status sub) /\
                  b64decode (text sub) = inr b) /\
  (result (run t) = inr None <->
   (exists e, outcome r = inl e /\ is_HTTPError e = true) \/
   (exists sub, outcome r = inr sub /\ ~ success (http_status sub))) /\
  (forall x : raised,
      result (run t) = inl x <->
      exists e, x = Unhandled e /\ is_HTTPError e = false /\
                (outcome r = inl e \/
                 exists sub, outcome r = inr sub /\ success (http_status sub) /\
                             b64decode (text sub) = inl e)) /\
  done_at t = arrival r.
Proof.
  intros r t. unfold t. rewrite fetch_subscription_result. unfold fetched.
  fold r. split; [|split; [|split; [|reflexivity]]].
  - intros b. destruct (outcome r) as [e|sub].
    + split; [destruct (is_HTTPError e); discriminate | intros (s & [=] & _)].
    + destruct (raise_for_status_cases sub) as [[-> Hs]|[-> Hs]].
      * split.
        -- destruct (b64decode (text sub)) as [e|d] eqn:D; [discriminate|].
           intros [= <-]. now exists sub.
        -- intros (s & [= <-] & _ & ->). reflexivity.
      * split; [discriminate | intros (s & [= <-] & Hs' & _); contradiction].
  - destruct (outcome r) as [e|sub].
    + destruct (is_HTTPError e) eqn:E.
      * split; [intros _; left; now exists e | reflexivity].
      * split; [discriminate|].
        intros [(e' & [= <-] & He)|(s & [=] & _)]. congruence.
    + destruct (raise_for_status_cases sub) as [[-> Hs]|[-> Hs]].
      * split.
        -- destruct (b64decode (text sub)); discriminate.
        -- intros [(e & [=] & _)|(s & [= <-] & Hs')]. contradiction.
      * split; [intros _; right; now exists sub | reflexivity].
  - intros x. destruct (outcome r) as [e|sub].
    + destruct (is_HTTPError e) eqn:E.
      * split; [discriminate|].
        intros (e' & _ & He & [[= <-]|(s & [=] & _)]). congruence.
      * split.
        -- intros [= <-]. exists e. auto.
        -- intros (e' & -> & _ & [[= <-]|(s & [=] & _)]). reflexivity.
    + destruct (raise_for_status_cases sub) as [[-> Hs]|[-> Hs]].
      * destruct (b64decode (text sub)) as [e|d] eqn:D.
        -- split.
           ++ intros [= <-]. exists e. split; [reflexivity|].
              split; [now apply (b64decode_error (text sub))|].
              right. now exists sub.
           ++ intros (e' & -> & _ & [[=]|(s & [= <-] & _ & D')]).
              rewrite D in D'. now injection D' as <-.
        -- split; [discriminate|].
           intros (e' & _ & _ & [[=]|(s & [= <-] & _ & D')]). congruence.
      * split; [discriminate|].
        intros (e' & _ & _ & [[=]|(s & [= <-] & Hs' & _)]). contradiction.
Qed.

Lemma fetch_subscription_outcomes_witness :
  (exists sub, outcome (plain_get "https://sub.example/abc" 3) = inr sub /\
               success (http_status sub) /\ b64decode (text sub) = inr [x41]) /\
  result (run (fetch_subscription plain_get "https://sub.example/" "abc"))
  = inr (Some [x41]).
Proof.
  assert (H : exists sub,
             outcome (plain_get "https://sub.example/abc" 3) = inr sub /\
             success (http_status sub) /\ b64decode (text sub) = inr [x41]).
  { eexists. split; [reflexivity|]. split; [|reflexivity]. unfold success. simpl. lia. }
  split; [exact H|].
  exact (proj2 (proj1 (fetch_subscription_outcomes plain_get
                         "https://sub.example/" "abc") [x41]) H).
Defined.



(** The decoder skips the bytes that are not significant. *)
Lemma a2b_loop_significant (data : list byte) :
  forall (quad_pos leftchar pads : N) (bin_data : list byte),
    a2b_loop (filter significant data) quad_pos leftchar pads bin_data
    = a2b_loop data quad_pos leftchar pads bin_data.
Proof.
  induction data as [|c data IH]; intros quad_pos leftchar pads bin_data;
    [reflexivity|].
  cbn [filter]. unfold significant at 1.
  destruct (Byte.eqb c BASE64_PAD) eqn:P; cbn [orb].
  - cbn [a2b_loop]. rewrite P.
    destruct (2 <=? quad_pos)%N; [|apply IH].
    destruct (4 <=? quad_pos + (pads + 1))%N; [reflexivity | apply IH].
  - destruct (table_a2b c) as [v|] eqn:T; cbn [is_some].
    + cbn [a2b_loop]. rewrite P, T.
      destruct (quad_pos =? 0)%N; [apply IH|].
      destruct (quad_pos =? 1)%N; [apply IH|].
      destruct (quad_pos =? 2)%N; apply IH.
    + cbn [a2b_loop]. rewrite P, T. apply IH.
Qed.

(** The layout of the base64 text does not matter: two answers with a 2xx
    status whose ASCII texts have the same digits and pads, whatever blanks,
    line ends or other characters stand between them, give the same
    result. *)
Theorem fetch_subscription_ignores_layout
        (client_get client_get' : http_get) (sub_link sub_id : string)
        (sub sub' : httpx_Response)
  (Hget : outcome (client_get (sub_link ++ sub_id)%string 3) = inr sub)
  (Hget' : outcome (client_get' (sub_link ++ sub_id)%string 3) = inr sub')
  (Hok : success (http_status sub))
  (Hok' : success (http_status sub'))
  (Hascii : isascii (text sub) = true)
  (Hascii' : isascii (text sub') = true)
  (Hsame : filter significant (list_byte_of_string (text sub))
           = filter significant (list_byte_of_string (text sub'))) :
  result (run (fetch_subscription client_get sub_link sub_id))
  = result (run (fetch_subscription client_get' sub_link sub_id)).
Proof.
  rewrite !fetch_subscription_result. unfold fetched. rewrite Hget, Hget'.
  apply raise_for_status_success in Hok, Hok'. rewrite Hok, Hok'.
  assert (D : b64decode (text sub) = b64decode (text sub')).
  { unfold b64decode. unfold isascii in Hascii, Hascii'.
    rewrite Hascii, Hascii'. unfold a2b_base64.
    rewrite <- (a2b_loop_significant (list_byte_of_string (text sub))).
    rewrite <- (a2b_loop_significant (list_byte_of_string (text sub'))).
    now rewrite Hsame. }
  now rewrite D.
Qed.

Lemma fetch_subscription_ignores_layout_witness :
  significant " " = false /\ significant x0a = false /\ significant x0d = false /\
  result (run (fetch_subscription plain_get "https://sub.example/" "abc"))
  = result (run (fetch_subscription wrapped_get "https://sub.example/" "abc")) /\
  result (run (fetch_subscription wrapped_get "https://sub.example/" "abc"))
  = inr (Some [x41]).
Proof.
  split; [reflexivity|]. split; [reflexivity|]. split; [reflexivity|].
  split; [|reflexivity].
  apply (fetch_subscription_ignores_layout plain_get wrapped_get
           "https://sub.example/" "abc"
           {| http_status := 200; text := "QQ==" |}
           {| http_status := 200;
              text := ("Q" ++ LF ++ " Q=" ++ String "013" LF ++ "=" ++ LF)%string |});
    try reflexivity; unfold success; simpl; lia.
Defined.

(** ** The aggregator, in full *)

Lemma enumerate_from_In {A} (k0 k : nat) (l : list A) (a : A) :
  In (k, a) (enumerate_from k0 l) ->
  exists i, k = k0 + i /\ nth_error l i = Some a.
Proof.
  revert k0. induction l as [|b l IH]; intros k0; cbn; [contradiction|].
  intros [[= <- <-]|H].
  - exists 0. split; [lia | reflexivity].
  - destruct (IH _ H) as (i & -> & Hi). exists (S i). split; [lia | exact Hi].
Qed.

Lemma subscription_tasks_In (client : nat -> http_get) (sub_links : list string)
      (sub_id : string) (t : task (option (list byte))) :
  In t (subscription_tasks client sub_links sub_id) ->
  exists k u, nth_error sub_links k = Some u /\
              t = fetch_subscription (client k) u sub_id.
Proof.
  unfold subscription_tasks. intros H. apply in_map_iff in H.
  destruct H as ([k u] & <- & Hin). apply enumerate_from_In in Hin.
  destruct Hin as (i & -> & Hi). now exists i, u.
Qed.

(** What [merge_all] raises: the 500 error, or an exception that one of the
    fetches raised, which is never of the [httpx.HTTPError] family. *)
Theorem merge_all_raises (client : nat -> http_get)
        (sub_links vless_links : list string) (sub_id : string) (x : raised)
  (Hraise : result (merge_all client sub_links vless_links sub_id) = inl x) :
  x = nothing_to_return \/
  exists (e : exception) (k : nat) (sub_url : string),
    x = Unhandled e /\ is_HTTPError e = false /\
    nth_error sub_links k = Some sub_url /\
    result (run (fetch_subscription (client k) sub_url sub_id)) = inl (Unhandled e).
Proof.
  rewrite merge_all_result in Hraise.
  destruct (result (gather _)) as [e|tmp] eqn:G.
  - injection Hraise as ->. right.
    apply gather_raises in G. destruct G as (t & Ht & Hr).
    apply subscription_tasks_In in Ht. destruct Ht as (k & u & Hk & ->).
    pose proof Hr as Hr'.
    rewrite fetch_subscription_result in Hr. unfold fetched in Hr.
    destruct (outcome _) as [e|sub].
    + destruct (is_HTTPError e) eqn:E; [discriminate|].
      injection Hr as <-. now exists e, k, u.
    + destruct (raise_for_status sub); [discriminate|].
      destruct (b64decode (text sub)) as [e|d] eqn:D; [|discriminate].
      injection Hr as <-. exists e, k, u.
      split; [reflexivity|]. split; [now apply (b64decode_error (text sub))|].
      now split.
  - destruct (is_empty (not_None tmp) && is_empty vless_links); [|discriminate].
    injection Hraise as <-. now left.
Qed.

Lemma merge_all_raises_witness :
  result (merge_all (subscription_get garbled_world)
                    ["https://bad.example/"; "https://sub.example/"]
                    [scenario_inline] "abc") = inl (Unhandled binascii_Error) /\
  (Unhandled binascii_Error = nothing_to_return \/
   exists (e : exception) (k : nat) (sub_url : string),
     Unhandled binascii_Error = Unhandled e /\ is_HTTPError e = false /\
     nth_error ["https://bad.example/"; "https://sub.example/"] k = Some sub_url /\
     result (run (fetch_subscription (subscription_get garbled_world k) sub_url "abc"))
     = inl (Unhandled e)).
Proof.
  split; [reflexivity|].
  exact (merge_all_raises (subscription_get garbled_world)
           ["https://bad.example/"; "https://sub.example/"] [scenario_inline]
           "abc" (Unhandled binascii_Error) eq_refl).
Defined.

Lemma fetch_subscription_ext (g g' : http_get) (sub_link sub_id : string) :
  g' (sub_link ++ sub_id)%string 3 = g (sub_link ++ sub_id)%string 3 ->
  fetch_subscription g' sub_link sub_id = fetch_subscription g sub_link sub_id.
Proof. intros H. unfold fetch_subscription. now rewrite H. Qed.

Lemma subscription_tasks_ext (client client' : nat -> http_get)
      (sub_links : list string) (sub_id : string) :
  (forall k u, nth_error sub_links k = Some u ->
               client' k (u ++ sub_id)%string 3 = client k (u ++ sub_id)%string 3) ->
  subscription_tasks client' sub_links sub_id
  = subscription_tasks client sub_links sub_id.
Proof.
  intros H. unfold subscription_tasks. apply map_ext_in. intros [k u] Hin.
  apply enumerate_from_In in Hin. destruct Hin as (i & -> & Hi).
  apply fetch_subscription_ext. now apply H.
Qed.

(** What [merge_all] asks of the network: for the k-th endpoint one request,
    to the endpoint followed by the client identifier as it is, with a
    timeout of 3.  Two clients that answer these requests alike give the
    same payload, error and log. *)
Theorem merge_all_requests (client client' : nat -> http_get)
        (sub_links vless_links : list string) (sub_id : string)
  (Hsame : forall k u, nth_error sub_links k = Some u ->
                       client' k (u ++ sub_id)%string 3
                       = client k (u ++ sub_id)%string 3) :
  merge_all client' sub_links vless_links sub_id
  = merge_all client sub_links vless_links sub_id.
Proof.
  unfold merge_all.
  fold (subscription_tasks client sub_links sub_id).
  fold (subscription_tasks client' sub_links sub_id).
  now rewrite (subscription_tasks_ext client client' sub_links sub_id Hsame).
Qed.

Lemma merge_all_requests_witness :
  slow_then_fast_elsewhere 0 "https://a.example/" 3 <> slow_then_fast 0 "https://a.example/" 3 /\
  merge_all slow_then_fast_elsewhere ["https://a.example/"; "https://b.example/"]
            ["vless://x"] "id"
  = merge_all slow_then_fast ["https://a.example/"; "https://b.example/"]
              ["vless://x"] "id".
Proof.
  split; [discriminate|].
  apply merge_all_requests.
  intros [|[|k]] u H; cbn [nth_error] in H;
    [ injection H as <-; reflexivity
    | injection H as <-; reflexivity
    | destruct k; discriminate ].
Defined.










(** ** The request handler, in full *)

Lemma fetch_results_nil_payloads (client : nat -> http_get) (sub_id : string) :
  payloads (fetch_results client [] sub_id) = [].
Proof. reflexivity. Qed.

Lemma main_answers (w : World) (sub_id : string)
      (sub_links vless_links : list string) :
  result (fetch_links w) = inr (sub_links, vless_links) ->
  Forall (fun o => exists p, o = inr p)
         (fetch_results (subscription_get w) sub_links sub_id) ->
  payloads (fetch_results (subscription_get w) sub_links sub_id) <> []
  \/ vless_links <> [] ->
  result (main w sub_id)
  = respond w
      (merged (payloads (fetch_results (subscription_get w) sub_links sub_id))
              vless_links).
Proof.
  intros L F Hne. rewrite main_result, L.
  assert (E : is_empty (payloads (fetch_results (subscription_get w)
                                                sub_links sub_id))
              && is_empty vless_links = false).
  { destruct Hne as [Hne|Hne].
    - destruct (payloads _); [congruence | reflexivity].
    - destruct vless_links; [congruence | apply andb_false_r]. }
  assert (E' : is_empty sub_links && is_empty vless_links = false).
  { destruct sub_links; [|reflexivity].
    rewrite fetch_results_nil_payloads in E. exact E. }
  rewrite E'.
  rewrite (merge_all_returns _ sub_links vless_links sub_id F), E.
  reflexivity.
Qed.

(** When the handler answers, and with what: exactly when the source list
    was read, every fetch came back, there is a payload or an inline entry,
    and the optional headers can be encoded as latin-1, which the
    constructor of the response asks for; the response then has status 200,
    the media type [text/plain], the optional headers, and the base64 text
    of the merged payload as its body. *)
Theorem main_returns (w : World) (sub_id : string) (r : Response) :
  result (main w sub_id) = inr r <->
  sendable w = true /\
  exists sub_links vless_links : list string,
    result (fetch_links w) = inr (sub_links, vless_links) /\
    Forall (fun o => exists p, o = inr p)
           (fetch_results (subscription_get w) sub_links sub_id) /\
    (payloads (fetch_results (subscription_get w) sub_links sub_id) <> []
     \/ vless_links <> []) /\
    r = response_for w
          (merged (payloads (fetch_results (subscription_get w) sub_links sub_id))
                  vless_links).
Proof.
  split.
  - rewrite main_result.
    destruct (result (fetch_links w)) as [e|[sub_links vless_links]];
      [discriminate|].
    destruct (is_empty sub_links && is_empty vless_links); [discriminate|].
    destruct (result (merge_all _ _ _ _)) as [e|merged_bytes] eqn:M;
      [discriminate|].
    intros H. apply respond_inr in H. destruct H as [Hsend ->].
    split; [exact Hsend|].
    apply payload_of_merge_all in M.
    destruct M as (F & Hne & ->).
    exists sub_links, vless_links. split; [reflexivity|]. split; [exact F|].
    split; [|reflexivity].
    apply andb_false_iff in Hne. destruct Hne as [Hne|Hne].
    + left. intros E. now rewrite E in Hne.
    + right. intros E. now rewrite E in Hne.
  - intros (Hsend & sub_links & vless_links & L & F & Hne & ->).
    rewrite (main_answers w sub_id sub_links vless_links L F Hne).
    apply respond_inr. now split.
Qed.

Lemma main_returns_witness :
  sendable demo_world = true /\
  result (main demo_world "abc")
  = inr (response_for demo_world (encode ("A" ++ scenario_inline))).
Proof.
  split; [reflexivity|].
  apply (proj2 (main_returns demo_world "abc" _)).
  split; [reflexivity|].
  exists [scenario_endpoint], [scenario_inline].
  split; [reflexivity|]. split; [repeat constructor; now eexists|].
  split; [right; discriminate | reflexivity].
Defined.

Lemma table_b2a_In (v : N) : (v < 64)%N -> In (table_b2a v) alphabet.
Proof.
  intros H. unfold table_b2a. apply nth_In.
  replace (List.length alphabet) with 64 by (vm_compute; reflexivity). lia.
Qed.

Lemma alphabet_ascii : Forall (fun c => (Byte.to_N c < 128)%N) alphabet.
Proof.
  apply Forall_forall. intros c Hc. apply N.ltb_lt.
  assert (H : forallb (fun c => (Byte.to_N c <? 128)%N) alphabet = true)
    by (vm_compute; reflexivity).
  rewrite forallb_forall in H. now apply H.
Qed.

Lemma base64_byte_ascii (c : byte) : base64_byte c -> (Byte.to_N c < 128)%N.
Proof.
  intros [H| ->]; [|reflexivity].
  pose proof alphabet_ascii as A. rewrite Forall_forall in A. now apply A.
Qed.

(** The text [b64encode] writes: digits and pads only, four for every three
    bytes, a started group of three counting as a whole one. *)
Lemma b64encode_shape (n : nat) :
  forall s : list byte,
    List.length s <= n ->
    Forall base64_byte (b64encode s) /\
    exists k, List.length (b64encode s) = 4 * k /\
              List.length s <= 3 * k < List.length s + 3.
Proof.
  induction n as [|n IH]; intros s Hn.
  - destruct s; [|cbn [List.length] in Hn; lia]. split; [constructor|].
    exists 0. cbn [b64encode List.length]. lia.
  - destruct s as [|a [|b [|c s]]].
    + split; [constructor|]. exists 0. cbn [b64encode List.length]. lia.
    + destruct (lone_byte a) as (H1 & H2 & _).
      split; [|exists 1; cbn [b64encode List.length]; lia].
      cbn [b64encode].
      repeat (constructor; [first [left; now apply table_b2a_In | right; reflexivity]|]).
      constructor.
    + destruct (first_byte a b) as (H1 & H2 & _).
      destruct (second_byte b) as (H3 & _).
      split; [|exists 1; cbn [b64encode List.length]; lia].
      cbn [b64encode].
      repeat (constructor; [first [left; now apply table_b2a_In | right; reflexivity]|]).
      constructor.
    + destruct (first_byte a b) as (H1 & H2 & _).
      destruct (last_bytes b c) as (H3 & H4 & _).
      cbn [List.length] in Hn.
      destruct (IH s) as (F & k & Hk & Hb); [lia|].
      split.
      * cbn [b64encode].
        repeat (constructor; [left; now apply table_b2a_In|]).
        exact F.
      * exists (S k). cbn [b64encode List.length]. rewrite Hk. lia.
Qed.

(** The body of every response is base64 text: ASCII, digits of the
    alphabet and pads only, a multiple of four in length; decoding it gives
    back the merged payload of the aggregator, and encoding that gives the
    body again. *)
Theorem response_body (w : World) (sub_id : string) (r : Response)
  (Hresponse : result (main w sub_id) = inr r) :
  Forall (fun c => base64_byte c /\ (Byte.to_N c < 128)%N) (content r) /\
  exists (merged_bytes : list byte) (k : nat),
    b64decode_bytes (content r) = inr merged_bytes /\
    b64encode merged_bytes = content r /\
    List.length (content r) = 4 * k /\
    List.length merged_bytes <= 3 * k < List.length merged_bytes + 3 /\
    exists sub_links vless_links : list string,
      result (fetch_links w) = inr (sub_links, vless_links) /\
      result (merge_all (subscription_get w) sub_links vless_links sub_id)
      = inr merged_bytes.
Proof.
  rewrite main_result in Hresponse.
  destruct (result (fetch_links w)) as [e|[sub_links vless_links]];
    [discriminate|].
  destruct (is_empty sub_links && is_empty vless_links); [discriminate|].
  destruct (result (merge_all _ _ _ _)) as [e|merged_bytes] eqn:M;
    [discriminate|].
  apply respond_inr in Hresponse. destruct Hresponse as [_ ->].
  cbn [content response_for].
  destruct (b64encode_shape (List.length merged_bytes) merged_bytes (le_n _))
    as (F & k & Hk & Hb).
  split.
  - revert F. apply Forall_impl. intros c Hc.
    split; [exact Hc | now apply base64_byte_ascii].
  - exists merged_bytes, k. split; [apply b64decode_b64encode|].
    split; [reflexivity|]. split; [exact Hk|]. split; [exact Hb|].
    now exists sub_links, vless_links.
Qed.

Lemma response_body_witness :
  result (main demo_world "abc")
  = inr (response_for demo_world (encode ("A" ++ scenario_inline))) /\
  Forall (fun c => base64_byte c /\ (Byte.to_N c < 128)%N)
         (content (response_for demo_world (encode ("A" ++ scenario_inline)))).
Proof.
  split; [reflexivity|].
  exact (proj1 (response_body demo_world "abc"
                  (response_for demo_world (encode ("A" ++ scenario_inline)))
                  eq_refl)).
Defined.

Lemma merge_all_HTTPException (client : nat -> http_get)
      (sub_links vless_links : list string) (sub_id : string)
      (status : Z) (detail : string) :
  result (merge_all client sub_links vless_links sub_id)
  = inl (HTTPException status detail) ->
  HTTPException status detail = nothing_to_return.
Proof.
  intros H.
  assert (F : Forall (fun r => exists o, r = inr o)
                     (fetch_results client sub_links sub_id)).
  { apply (merge_all_inv client sub_links vless_links sub_id).
    right. now exists status, detail. }
  rewrite (merge_all_returns client sub_links vless_links sub_id F) in H.
  destruct (is_empty (payloads _) && is_empty vless_links); [|discriminate].
  now injection H as <- <-.
Qed.

(** The [HTTPException]s of the handler: the 404 error and the 500 error and
    no other.  The 404 error is raised exactly when reading the source list
    raised [HTTPStatusError]; in remote mode, with a client that raises no
    such error itself, that is when the answer has a status outside 2xx. *)
Theorem config_not_found_iff (w : World) (sub_id : string) :
  (forall status detail,
      result (main w sub_id) = inl (HTTPException status detail) ->
      HTTPException status detail = config_not_found \/
      HTTPException status detail = nothing_to_return) /\
  (result (main w sub_id) = inl config_not_found <->
   source_lines w = inl HTTPStatusError) /\
  (forall url : string,
      local_mode w = false -> environ w "CONFIG_URL" = Some url ->
      (forall e, source_list_get w url (github_headers (environ w "GITHUB_TOKEN")) 6
                 = inl e -> is_HTTPStatusError e = false) ->
      (result (main w sub_id) = inl config_not_found <->
       exists response,
         source_list_get w url (github_headers (environ w "GITHUB_TOKEN")) 6
         = inr response /\ ~ success (http_status response))).
Proof.
  assert (A : result (main w sub_id) = inl config_not_found <->
              source_lines w = inl HTTPStatusError).
  { rewrite main_result.
    assert (F : result (fetch_links w) = inl config_not_found <->
                source_lines w = inl HTTPStatusError).
    { rewrite fetch_links_source_lines.
      destruct (source_lines w) as [e|lines].
      - destruct e; cbn; split; intros H; try discriminate; reflexivity.
      - split; discriminate. }
    rewrite <- F.
    destruct (result (fetch_links w)) as [e|[sub_links vless_links]];
      [split; intros [= ->]; reflexivity|].
    split; [|discriminate].
    destruct (is_empty sub_links && is_empty vless_links); [discriminate|].
    destruct (result (merge_all _ _ _ _)) as [e|m] eqn:M;
      [|rewrite respond_cases; destruct (sendable w); discriminate].
    intros [= ->]. apply merge_all_HTTPException in M. discriminate. }
  split; [|split; [exact A|]].
  - intros status detail H. rewrite main_result in H.
    destruct (result (fetch_links w)) as [e|[sub_links vless_links]] eqn:L.
    + apply fetch_links_raises in L. destruct L as [->|[x ->]];
        [left; congruence | discriminate].
    + destruct (is_empty sub_links && is_empty vless_links);
        [right; congruence|].
      destruct (result (merge_all _ _ _ _)) as [e|m] eqn:M;
        [|rewrite respond_cases in H; destruct (sendable w); discriminate].
      injection H as ->. right. now apply merge_all_HTTPException in M.
  - intros url Hmode Hurl Hclient. rewrite A.
    unfold source_lines. rewrite Hmode, Hurl.
    destruct (source_list_get w url _ 6) as [e|response] eqn:G; cbn [and_then].
    + split.
      * intros [= ->]. now specialize (Hclient _ eq_refl).
      * intros (response & [=] & _).
    + destruct (raise_for_status_cases response) as [[-> Hs]|[-> Hs]];
        cbn [and_then].
      * split; [discriminate | intros (r' & [= <-] & Hr); contradiction].
      * split; [intros _; now exists response | reflexivity].
Qed.

Lemma config_not_found_iff_witness :
  source_lines missing_world = inl HTTPStatusError /\
  result (main missing_world "abc") = inl config_not_found.
Proof.
  split; [reflexivity|].
  exact (proj2 (proj1 (proj2 (config_not_found_iff missing_world "abc"))) eq_refl).
Defined.

Lemma payloads_In (rs : list (raised + option (list byte))) (b : list byte) :
  In (inr (Some b)) rs -> payloads rs <> [].
Proof.
  induction rs as [|o rs IH]; [contradiction|].
  unfold payloads in *. cbn [flat_map]. intros [->|H]; [discriminate|].
  destruct o as [x|[c|]]; [now apply IH | discriminate | now apply IH].
Qed.

Lemma payloads_all_empty (rs : list (raised + option (list byte))) :
  Forall (fun o => o = inr None \/ o = inr (Some [])) rs ->
  List.concat (payloads rs) = [].
Proof.
  induction 1 as [|o rs [->| ->] _ IH]; [reflexivity | exact IH | exact IH].
Qed.

(** An endpoint that answers with an empty payload has answered: with no
    inline entry and nothing else fetched, the handler does not raise the
    500 error; it builds the response with an empty body, which has status
    200 when the optional headers can be encoded as latin-1 (the constructor
    raises [UnicodeEncodeError] when they cannot). *)
Theorem empty_payload_is_success (w : World) (sub_id : string)
        (sub_links : list string)
  (Hlinks : result (fetch_links w) = inr (sub_links, []))
  (Hresults : Forall (fun o => o = inr None \/ o = inr (Some []))
                     (fetch_results (subscription_get w) sub_links sub_id))
  (Hone : In (inr (Some [])) (fetch_results (subscription_get w) sub_links sub_id)) :
  result (main w sub_id) = respond w [] /\
  result (main w sub_id) <> inl nothing_to_return /\
  (sendable w = true ->
   result (main w sub_id) = inr (response_for w []) /\
   status_code (response_for w []) = 200%Z /\ content (response_for w []) = []) /\
  (sendable w = false ->
   result (main w sub_id) = inl (Unhandled UnicodeEncodeError)).
Proof.
  set (rs := fetch_results (subscription_get w) sub_links sub_id) in *.
  assert (P1 : payloads rs <> []) by now apply (payloads_In rs []).
  assert (P2 : List.concat (payloads rs) = []) by now apply payloads_all_empty.
  assert (F : Forall (fun o => exists p, o = inr p) rs)
    by (revert Hresults; apply Forall_impl; intros o [->| ->]; eauto).
  assert (R : result (main w sub_id) = respond w []).
  { rewrite (main_answers w sub_id sub_links [] Hlinks F (or_introl P1)).
    fold rs. unfold merged. now rewrite P2. }
  rewrite R, respond_cases. split; [reflexivity|].
  split; [destruct (sendable w); discriminate|].
  split; intros ->; [split; [|split]|]; reflexivity.
Qed.

(** The letter with an accent in the [SUB_NAME] of [accent_world] is one
    that latin-1 has. *)
Lemma empty_payload_is_success_witness :
  result (fetch_links accent_world) = inr (["https://sub.example/"], []) /\
  fetch_results (subscription_get accent_world) ["https://sub.example/"] "abc"
  = [inr (Some [])] /\
  sendable accent_world = true /\
  result (main accent_world "abc")
  = inr {| status_code := 200; content := []; media_type := "text/plain";
           headers := [("profile-title", String "195" (String "169" ""))] |}.
Proof.
  split; [reflexivity|]. split; [reflexivity|]. split; [reflexivity|].
  destruct (empty_payload_is_success accent_world "abc" ["https://sub.example/"])
    as (_ & _ & S & _).
  - reflexivity.
  - constructor; [now right | constructor].
  - now left.
  - exact (proj1 (S eq_refl)).
Defined.

Lemma header_names_latin1 (w : World) :
  Forall (fun kv : string * string => latin1 (fst kv) = true)
         (build_optional_headers w).
Proof.
  apply Forall_map with (f := fst) (P := fun k => latin1 k = true).
  rewrite build_optional_headers_items.
  pose proof (items_keys (header_value w) (map fst header_variables)) as Hk.
  unfold optional_items in Hk. rewrite Hk.
  apply Forall_forall. intros k Hin. apply filter_In in Hin.
  destruct Hin as [Hin _].
  assert (H : forallb latin1 (map fst header_variables) = true)
    by (vm_compute; reflexivity).
  rewrite forallb_forall in H. now apply H.
Qed.

(** Sending the optional headers.  Their names are ASCII, so the
    constructor of the response takes them exactly when every value can be
    encoded as latin-1.  When one cannot, the handler never answers: where
    it would have answered, it raises [UnicodeEncodeError], which nothing
    handles. *)
Theorem header_encoding (w : World) (sub_id : string) :
  (sendable w = true <->
   Forall (fun kv => latin1 (snd kv) = true) (build_optional_headers w)) /\
  (sendable w = false ->
   (forall r : Response, result (main w sub_id) <> inr r) /\
   forall sub_links vless_links : list string,
     result (fetch_links w) = inr (sub_links, vless_links) ->
     Forall (fun o => exists p, o = inr p)
            (fetch_results (subscription_get w) sub_links sub_id) ->
     payloads (fetch_results (subscription_get w) sub_links sub_id) <> []
     \/ vless_links <> [] ->
     result (main w sub_id) = inl (Unhandled UnicodeEncodeError)).
Proof.
  split.
  - unfold sendable. rewrite forallb_forall, Forall_forall.
    pose proof (header_names_latin1 w) as N. rewrite Forall_forall in N.
    split; intros H kv Hin.
    + specialize (H kv Hin). apply andb_true_iff in H. apply H.
    + now rewrite (N kv Hin), (H kv Hin).
  - intros Hs. split.
    + intros r H. rewrite main_result in H.
      destruct (result (fetch_links w)) as [e|[sub_links vless_links]];
        [discriminate|].
      destruct (is_empty sub_links && is_empty vless_links); [discriminate|].
      destruct (result (merge_all _ _ _ _)) as [e|merged_bytes];
        [discriminate|].
      apply respond_inr in H. destruct H as [H _]. congruence.
    + intros sub_links vless_links L F Hne.
      now rewrite (main_answers w sub_id sub_links vless_links L F Hne),
        respond_cases, Hs.
Qed.

Lemma header_encoding_witness :
  sendable cyrillic_world = false /\
  result (main cyrillic_world "abc") = inl (Unhandled UnicodeEncodeError).
Proof.
  split; [reflexivity|].
  apply (proj2 (proj2 (header_encoding cyrillic_world "abc") eq_refl)
           ["https://down.example/"] ["vless://a"; "vless://b"]).
  - reflexivity.
  - repeat constructor; now eexists.
  - right. discriminate.
Defined.

(** What the handler asks of the network after the source list: the
    requests of [merge_all] for the endpoints of the list and nothing else.
    Two worlds with the same source list and environment whose clients
    answer these requests alike give the same response, error and log. *)
Theorem main_requests (w w' : World) (sub_id : string)
  (Hlinks : fetch_links w' = fetch_links w)
  (Henv : forall name, environ w' name = environ w name)
  (Hsame : forall sub_links vless_links k u,
      result (fetch_links w) = inr (sub_links, vless_links) ->
      nth_error sub_links k = Some u ->
      subscription_get w' k (u ++ sub_id)%string 3
      = subscription_get w k (u ++ sub_id)%string 3) :
  main w' sub_id = main w sub_id.
Proof.
  unfold main. rewrite Hlinks, (build_optional_headers_ext w w' Henv).
  destruct (fetch_links w) as [logs [e|[sub_links vless_links]]] eqn:F;
    [reflexivity|].
  cbn [bind]. unfold merge_all.
  fold (subscription_tasks (subscription_get w) sub_links sub_id).
  fold (subscription_tasks (subscription_get w') sub_links sub_id).
  rewrite (subscription_tasks_ext (subscription_get w) (subscription_get w')
             sub_links sub_id); [reflexivity|].
  intros k u. apply (Hsame sub_links vless_links). reflexivity.
Qed.

Lemma main_requests_witness :
  main remote_world_elsewhere "abc" = main remote_world "abc".
Proof.
  apply main_requests; reflexivity.
Defined.
